(** * Federated storage network: chunk store, proof engine, placement,
      proof verification and heartbeats

    A shallow embedding of the Go sources of the storage node
    ([storage-node/internal/services]) and of the coordinator
    ([coordinator/internal/services], [coordinator/internal/handlers],
    [coordinator/internal/middleware]), followed by the properties of the
    specification that concern them.

    Conventions of the embedding.
    - [[]byte] is [list byte]; Go strings are [string] (a Go string is a byte
      sequence, and so is a [string] here); Go [int]/[int64] are [Z] (no
      arithmetic of the modelled code can overflow).
    - [crypto/sha256] and [encoding/hex] are library code; they are given
      executable definitions ([Crypto.sha256], [Crypto.hex]) so that every
      example can be evaluated.
    - The tables of the SQL stores are finite maps (peer side, keyed by the
      primary key) or lists of rows in table order (coordinator side).
    - [time.Now()] and [uuid.New()] are arguments of the operations that call
      them.
    - A write to the store or to the disk that the code guards with
      [if err != nil] takes the outcome of that write as an argument; reads
      answer faithfully. *)

From Stdlib Require Import ZArith NArith List String Ascii Strings.Byte Bool Lia.
From Stdlib Require Import Sorting.Sorted.
From stdpp Require Import base option list gmap strings.

Import ListNotations.
Local Open Scope string_scope.
Local Open Scope list_scope.
Local Open Scope Z_scope.

(* ===================================================================== *)
(** ** Library code: SHA-256 and hexadecimal encoding                     *)
(* ===================================================================== *)

Module Crypto.

(** 32-bit words are integers reduced modulo [2^32]. *)
Definition wrap32 (x : Z) : Z := x mod 4294967296.

Definition add32 (x y : Z) : Z := wrap32 (x + y).

Definition rotr (n x : Z) : Z :=
  Z.lor (Z.shiftr x n) (wrap32 (Z.shiftl x (32 - n))).

Definition not32 (x : Z) : Z := Z.lxor x 4294967295.

Definition choose (e f g : Z) : Z :=
  Z.lxor (Z.land e f) (Z.land (not32 e) g).

Definition majority (a b c : Z) : Z :=
  Z.lxor (Z.lxor (Z.land a b) (Z.land a c)) (Z.land b c).

Definition big_sigma0 (a : Z) : Z :=
  Z.lxor (Z.lxor (rotr 2 a) (rotr 13 a)) (rotr 22 a).

Definition big_sigma1 (e : Z) : Z :=
  Z.lxor (Z.lxor (rotr 6 e) (rotr 11 e)) (rotr 25 e).

Definition small_sigma0 (x : Z) : Z :=
  Z.lxor (Z.lxor (rotr 7 x) (rotr 18 x)) (Z.shiftr x 3).

Definition small_sigma1 (x : Z) : Z :=
  Z.lxor (Z.lxor (rotr 17 x) (rotr 19 x)) (Z.shiftr x 10).

(** The constants of the hash are fractional bits of square and cube roots
    of the first primes; they are computed rather than tabulated. *)
Fixpoint sieve (fuel : nat) (candidate : Z) (found : list Z) : list Z :=
  match fuel with
  | O => found
  | S fuel' =>
      if forallb (fun p => negb (candidate mod p =? 0)) found
      then sieve fuel' (candidate + 1) (found ++ [candidate])
      else sieve fuel' (candidate + 1) found
  end.

Definition first_primes : list Z := Eval vm_compute in sieve 310 2 [].

(** Integer cube root, one bit at a time from bit [b] downwards. *)
Fixpoint cube_root_bits (b : nat) (n acc : Z) : Z :=
  let try := acc + 2 ^ Z.of_nat b in
  let acc' := if try * try * try <=? n then try else acc in
  match b with
  | O => acc'
  | S b' => cube_root_bits b' n acc'
  end.

Definition round_constants : list Z :=
  Eval vm_compute in
    map (fun p => wrap32 (cube_root_bits 40 (p * 2 ^ 96) 0)) first_primes.

Definition initial_state : list Z :=
  Eval vm_compute in
    map (fun p => wrap32 (Z.sqrt (p * 2 ^ 64))) (take 8 first_primes).

(** Message padding: a [0x80] byte, zeroes up to 56 modulo 64, and the bit
    length as a 64-bit big-endian integer. *)
Fixpoint big_endian (width : nat) (x : Z) : list Z :=
  match width with
  | O => []
  | S w => (Z.shiftr x (8 * Z.of_nat w)) mod 256 :: big_endian w x
  end.

Definition pad (msg : list Z) : list Z :=
  let len := Z.of_nat (length msg) in
  let zeroes := Z.to_nat ((55 - len) mod 64) in
  msg ++ [128] ++ repeat 0 zeroes ++ big_endian 8 (8 * len).

Fixpoint words_of_bytes (bs : list Z) : list Z :=
  match bs with
  | b0 :: b1 :: b2 :: b3 :: rest =>
      (Z.shiftl b0 24 + Z.shiftl b1 16 + Z.shiftl b2 8 + b3)
        :: words_of_bytes rest
  | _ => []
  end.

(** The message schedule keeps a window of the last sixteen words. *)
Definition next_word (window : list Z) : Z :=
  add32 (add32 (small_sigma1 (nth 14 window 0)) (nth 9 window 0))
        (add32 (small_sigma0 (nth 1 window 0)) (nth 0 window 0)).

Fixpoint extend (n : nat) (window : list Z) : list Z :=
  match n with
  | O => []
  | S n' =>
      let w := next_word window in
      w :: extend n' (tl window ++ [w])
  end.

Definition schedule (block : list Z) : list Z := block ++ extend 48 block.

Record regs := Regs { ra : Z; rb : Z; rc : Z; rd : Z;
                      re : Z; rf : Z; rg : Z; rh : Z }.

Definition round (s : regs) (kw : Z * Z) : regs :=
  let t1 := add32 (add32 (add32 (rh s) (big_sigma1 (re s)))
                         (add32 (choose (re s) (rf s) (rg s)) (fst kw)))
                  (snd kw) in
  let t2 := add32 (big_sigma0 (ra s)) (majority (ra s) (rb s) (rc s)) in
  Regs (add32 t1 t2) (ra s) (rb s) (rc s) (add32 (rd s) t1) (re s) (rf s) (rg s).

Definition regs_of_list (l : list Z) : regs :=
  Regs (nth 0 l 0) (nth 1 l 0) (nth 2 l 0) (nth 3 l 0)
       (nth 4 l 0) (nth 5 l 0) (nth 6 l 0) (nth 7 l 0).

Definition list_of_regs (s : regs) : list Z :=
  [ra s; rb s; rc s; rd s; re s; rf s; rg s; rh s].

Definition compress (h : list Z) (block : list Z) : list Z :=
  let final := fold_left round (combine round_constants (schedule block))
                         (regs_of_list h) in
  map (fun p => add32 (fst p) (snd p)) (combine h (list_of_regs final)).

Fixpoint blocks (fuel : nat) (ws : list Z) : list (list Z) :=
  match fuel, ws with
  | S fuel', _ :: _ => take 16 ws :: blocks fuel' (drop 16 ws)
  | _, _ => []
  end.

Definition byte_of_Z (z : Z) : byte :=
  match Byte.of_N (Z.to_N z) with
  | Some b => b
  | None => x00
  end.

Definition Z_of_byte (b : byte) : Z := Z.of_N (Byte.to_N b).

(** [sha256.Sum256]: the 32-byte digest of a byte sequence. *)
Definition sha256 (data : list byte) : list byte :=
  let ws := words_of_bytes (pad (map Z_of_byte data)) in
  let h := fold_left compress (blocks (length ws) ws) initial_state in
  map byte_of_Z (concat (map (big_endian 4) h)).

(** [hex.EncodeToString]: two lowercase hexadecimal digits per byte. *)
Definition hex_digit (n : Z) : ascii :=
  match String.get (Z.to_nat n) "0123456789abcdef" with
  | Some c => c
  | None => "0"%char
  end.

Fixpoint hex (bs : list byte) : string :=
  match bs with
  | [] => EmptyString
  | b :: rest =>
      String (hex_digit (Z_of_byte b / 16))
             (String (hex_digit (Z_of_byte b mod 16)) (hex rest))
  end.

(** [[]byte(s)] *)
Definition bytes (s : string) : list byte := list_byte_of_string s.

End Crypto.

(* ===================================================================== *)
(** ** Results of Go calls                                                *)
(* ===================================================================== *)

(** A Go call either returns normally ([Ok], the [error] is [nil]), returns
    a non-nil [error] ([Err], carrying the constant part of its message), or
    stops with a run-time panic. *)
Inductive result (A : Type) : Type :=
| Ok (a : A)
| Err (msg : string)
| Panic.

Arguments Ok {A} a.
Arguments Err {A} msg.
Arguments Panic {A}.

(** Sequencing stops at the first error or panic; [x ← r; k] is stdpp's
    notation for it. *)
#[global] Instance result_bind : MBind result :=
  fun A B (k : A -> result B) (r : result A) =>
    match r with
    | Ok a => k a
    | Err msg => Err msg
    | Panic => Panic
    end.

Definition is_ok {A : Type} (r : result A) : bool :=
  match r with Ok _ => true | _ => false end.

(* ===================================================================== *)
(** ** The storage node: chunk store and proof engine                     *)
(* ===================================================================== *)

Module StorageNode.
Import Crypto.

(** [models.StoredChunk], a row of the [stored_chunks] table. *)
Record StoredChunk := mkStoredChunk {
  ID : string;
  FileID : string;
  ChunkIndex : Z;
  Hash : string;
  SizeBytes : Z;
  FilePath : string;
  Status : string;
  CreatedAt : Z;
  UpdatedAt : Z
}.

(** [ChunkService] together with what it reaches: the [stored_chunks]
    table (primary key [id]) and the files below [chunkDir]. A file is
    addressed by the text of its path; [.], [..] and doubled separators are
    not resolved, which is exact for identifiers that are plain names (such
    as hexadecimal digests and UUIDs). *)
Record ChunkService := mkChunkService {
  chunkDir : string;
  stored_chunks : gmap string StoredChunk;
  disk : gmap string (list byte)
}.

Definition NewChunkService (chunkDir : string) : ChunkService :=
  mkChunkService chunkDir ∅ ∅.

Definition with_disk (s : ChunkService) (d : gmap string (list byte)) :=
  mkChunkService (chunkDir s) (stored_chunks s) d.

Definition with_rows (s : ChunkService) (t : gmap string StoredChunk) :=
  mkChunkService (chunkDir s) t (disk s).

(** What can go wrong during one [StoreChunk]: [os.MkdirAll] fails,
    [os.WriteFile] fails (leaving the file untouched, [None], or with some
    partial content), or the [INSERT] fails. *)
Inductive fault :=
| NoFault
| MkdirFails
| WriteFails (remains : option (list byte))
| ExecFails.

(** [fmt.Sprintf("%s/%s/%s", s.chunkDir, chunkID[:2], chunkID[2:4])] *)
Definition chunk_dir_path (dir chunkID : string) : string :=
  dir +:+ "/" +:+ substring 0 2 chunkID +:+ "/" +:+ substring 2 2 chunkID.

(** [fmt.Sprintf("%s/%s", dirPath, chunkID)] *)
Definition chunk_file_path (dir chunkID : string) : string :=
  chunk_dir_path dir chunkID +:+ "/" +:+ chunkID.

(** [INSERT INTO stored_chunks ... ON CONFLICT(id) DO UPDATE SET ...]:
    a new row takes the column defaults ([status = 'active']); an existing
    row keeps its [status] and [created_at]. *)
Definition upsert_chunk (now : Z) (chunkID fileID : string) (chunkIndex : Z)
    (hash : string) (size : Z) (filePath : string)
    (t : gmap string StoredChunk) : gmap string StoredChunk :=
  match t !! chunkID with
  | None =>
      <[chunkID := mkStoredChunk chunkID fileID chunkIndex hash size filePath
                                 "active" now now]> t
  | Some old =>
      <[chunkID := mkStoredChunk chunkID fileID chunkIndex hash size filePath
                                 (Status old) (CreatedAt old) now]> t
  end.

(** [ChunkService.StoreChunk]. Slicing [chunkID[:2]] and [chunkID[2:4]]
    panics when the identifier has fewer than four bytes. *)
Definition StoreChunk (f : fault) (now : Z) (s : ChunkService)
    (chunkID fileID : string) (chunkIndex : Z) (hash : string)
    (data : list byte) : result unit * ChunkService :=
  if (String.length chunkID <? 4)%nat then (Panic, s)
  else
    let filePath := chunk_file_path (chunkDir s) chunkID in
    match f with
    | MkdirFails => (Err "failed to create chunk directory", s)
    | WriteFails remains =>
        (Err "failed to write chunk to disk",
         match remains with
         | None => s
         | Some partial => with_disk s (<[filePath := partial]> (disk s))
         end)
    | ExecFails =>
        (Err "failed to store chunk metadata",
         with_disk s (delete filePath (<[filePath := data]> (disk s))))
    | NoFault =>
        (Ok tt,
         mkChunkService (chunkDir s)
           (upsert_chunk now chunkID fileID chunkIndex hash
                         (Z.of_nat (length data)) filePath (stored_chunks s))
           (<[filePath := data]> (disk s)))
    end.

(** [ChunkService.GetChunk]: the row with this id, whatever its status. *)
Definition GetChunk (s : ChunkService) (chunkID : string) : result StoredChunk :=
  match stored_chunks s !! chunkID with
  | Some chunk => Ok chunk
  | None => Err "chunk not found"
  end.

(** [ChunkService.GetChunkData] *)
Definition GetChunkData (s : ChunkService) (chunkID : string) : result (list byte) :=
  chunk ← GetChunk s chunkID;
  match disk s !! FilePath chunk with
  | Some data => Ok data
  | None => Err "failed to read chunk from disk"
  end.

(** [ChunkService.ListChunks]: [WHERE status = 'active']. *)
Definition ListChunks (s : ChunkService) : list StoredChunk :=
  filter (fun c => Status c = "active") (snd <$> map_to_list (stored_chunks s)).

(** [ChunkService.DeleteChunk]: [UPDATE ... SET status = 'deleted',
    updated_at = ? WHERE id = ?]; the file stays on disk. *)
Definition mark_deleted (now : Z) (c : StoredChunk) : StoredChunk :=
  mkStoredChunk (ID c) (FileID c) (ChunkIndex c) (Hash c) (SizeBytes c)
                (FilePath c) "deleted" (CreatedAt c) now.

Definition DeleteChunk (exec_ok : bool) (now : Z) (s : ChunkService)
    (chunkID : string) : result unit * ChunkService :=
  if exec_ok
  then (Ok tt, with_rows s (alter (mark_deleted now) chunkID (stored_chunks s)))
  else (Err "exec failed", s).

(** [ChunkService.GetTotalStorage] and [ChunkService.GetChunkCount] *)
Definition GetTotalStorage (s : ChunkService) : Z :=
  foldr (fun c acc => SizeBytes c + acc) 0 (ListChunks s).

Definition GetChunkCount (s : ChunkService) : Z :=
  Z.of_nat (length (ListChunks s)).

(** [ProofResult] *)
Record ProofResult := mkProofResult {
  ProofHash : string;
  DurationMs : Z
}.

(** [for i := 0; i < difficulty; i++ { hash := sha256.Sum256(data);
    data = hash[:] }] *)
Fixpoint hash_loop (iterations : nat) (data : list byte) : list byte :=
  match iterations with
  | O => data
  | S n => hash_loop n (sha256 data)
  end.

(** [ProofEngine.GenerateProof]; [elapsed] is what [time.Since(start)]
    measures. *)
Definition GenerateProof (elapsed : Z) (s : ChunkService) (chunkID : string)
    (seed : list byte) (difficulty : Z) : result ProofResult :=
  match GetChunk s chunkID with
  | Ok chunk =>
      let data := seed ++ bytes (Hash chunk) in
      let data := hash_loop (Z.to_nat difficulty) data in
      Ok (mkProofResult (hex data) elapsed)
  | _ => Err "chunk not found"
  end.

(** Operations that change the store, for sequences of them. *)
Inductive op :=
| OpStore (f : fault) (now : Z) (chunkID fileID : string) (chunkIndex : Z)
          (hash : string) (data : list byte)
| OpDelete (exec_ok : bool) (now : Z) (chunkID : string).

Definition op_chunk (o : op) : string :=
  match o with
  | OpStore _ _ chunkID _ _ _ _ => chunkID
  | OpDelete _ _ chunkID => chunkID
  end.

Definition step (s : ChunkService) (o : op) : result unit * ChunkService :=
  match o with
  | OpStore f now chunkID fileID chunkIndex hash data =>
      StoreChunk f now s chunkID fileID chunkIndex hash data
  | OpDelete exec_ok now chunkID => DeleteChunk exec_ok now s chunkID
  end.

(** A sequence of operations runs to the end unless one of them panics;
    an operation that returns an error leaves what it has already done. *)
Fixpoint run (s : ChunkService) (ops : list op) : option ChunkService :=
  match ops with
  | [] => Some s
  | o :: rest =>
      match step s o with
      | (Panic, _) => None
      | (_, s') => run s' rest
      end
  end.

(** The specification's proof of storage, in its words: [data <- seed ||
    ciphertext; repeat difficulty times: data <- SHA-256(data);
    proof_hash <- lowercase-hex(data)]. *)
Definition canonical_proof (seed ciphertext : list byte) (difficulty : nat) : string :=
  hex (Nat.iter difficulty sha256 (seed ++ ciphertext)).


(** *** Notions used in the statements *)

(** [holds s id data]: the index has a row for [id] whose path is the one
    [StoreChunk] computes, and the file at that path contains [data]. *)
Definition holds (s : ChunkService) (id : string) (data : list byte) : Prop :=
  exists c, stored_chunks s !! id = Some c /\
            FilePath c = chunk_file_path (chunkDir s) id /\
            disk s !! FilePath c = Some data.

(** [file_name s]: [s] can be the name of one directory entry: it is not
    empty, it is neither [.] nor [..], and it holds no separator and no
    zero byte. *)
Definition has_separator (s : string) : bool :=
  existsb (fun c => Ascii.eqb c "/" || Ascii.eqb c Ascii.zero)
          (list_ascii_of_string s).

Definition file_name (s : string) : bool :=
  negb (String.eqb s "") && negb (String.eqb s ".") &&
  negb (String.eqb s "..") && negb (has_separator s).

(** [plain_id id]: the identifier is long enough for the two slices of
    [StoreChunk], and the three pieces the path is made of ([id[:2]],
    [id[2:4]] and [id]) are file names. The UUIDs and hexadecimal digests
    the system uses as identifiers are plain. For other identifiers the
    path can step through [.], [..] or an extra separator and end at the
    file of another chunk, which [disk], keyed by the text of the path,
    does not show; statements about the files of several chunks are
    therefore made for plain identifiers. *)
Definition plain_id (id : string) : bool :=
  (4 <=? String.length id)%nat && file_name (substring 0 2 id) &&
  file_name (substring 2 2 id) && file_name id.

(** The pieces of a path between its separators, as [strings.Split(path,
    "/")] gives them. *)
Fixpoint components (path : string) : list string :=
  match path with
  | EmptyString => [EmptyString]
  | String c rest =>
      if Ascii.eqb c "/" then EmptyString :: components rest
      else match components rest with
           | first :: others => String c first :: others
           | [] => [String c EmptyString]
           end
  end.

(** An operation that cannot take the bytes of [id] away: any delete, and
    a store of another chunk. *)
Definition spares (id : string) (o : op) : Prop :=
  match o with
  | OpStore _ _ chunkID _ _ _ _ => chunkID <> id
  | OpDelete _ _ _ => True
  end.

(** [hashes_agree s]: every row sits at the path of its identifier, and
    the bytes of every chunk that can be read hash to the recorded hash. *)
Definition hashes_agree (s : ChunkService) : Prop :=
  forall id c,
    stored_chunks s !! id = Some c ->
    FilePath c = chunk_file_path (chunkDir s) id /\
    (4 <= String.length id)%nat /\
    forall data, disk s !! FilePath c = Some data -> hex (sha256 data) = Hash c.

(** A store that supplies the digest of its bytes and does not stop
    half-way through the write; any delete. *)
Definition honest (o : op) : Prop :=
  match o with
  | OpStore f _ _ _ _ hash data =>
      hash = hex (sha256 data) /\ forall partial, f <> WriteFails (Some partial)
  | OpDelete _ _ _ => True
  end.

End StorageNode.

(* ===================================================================== *)
(** ** The coordinator: registry, placement, assignments, proofs          *)
(* ===================================================================== *)

Module Coordinator.
Import Crypto.

(** [uuid.UUID]: sixteen bytes, here the number they spell in big-endian
    order. *)
Definition UUID := N.
Bind Scope N_scope with UUID.

(** [UUID.String()]: the form [xxxxxxxx-xxxx-xxxx-xxxx-xxxxxxxxxxxx]. *)
Definition UUID_String (u : UUID) : string :=
  let h := hex (map byte_of_Z (big_endian 16 (Z.of_N u))) in
  substring 0 8 h +:+ "-" +:+ substring 8 4 h +:+ "-" +:+ substring 12 4 h
    +:+ "-" +:+ substring 16 4 h +:+ "-" +:+ substring 20 12 h.

(** [models.StorageNode], a row of [storage_nodes]. [UptimePercentage] is
    the [DECIMAL(5,2)] column counted in hundredths. *)
Record StorageNode := mkStorageNode {
  ID : UUID;
  Name : string;
  PeerID : string;
  PublicKey : list byte;
  Address : string;
  APIKeyHash : string;
  Status : string;
  TotalStorageBytes : Z;
  UsedStorageBytes : Z;
  EarnedCredits : Z;
  UptimePercentage : Z;
  LastHeartbeat : option Z;
  CreatedAt : Z;
  UpdatedAt : Z
}.

(** [models.Chunk] and the row of [chunks], which also holds the bytes. *)
Record Chunk := mkChunk {
  chunk_ID : UUID;
  chunk_FileID : UUID;
  chunk_ChunkIndex : Z;
  chunk_Hash : string;
  chunk_SizeBytes : Z
}.

Record ChunkRow := mkChunkRow {
  row_chunk : Chunk;
  row_data : list byte
}.

(** [models.ChunkAssignment], a row of [chunk_assignments]. *)
Record ChunkAssignment := mkChunkAssignment {
  asg_ID : UUID;
  asg_ChunkID : UUID;
  asg_NodeID : UUID;
  asg_Status : string;
  asg_CreatedAt : Z
}.

(** [models.ProofChallenge], a row of [proof_challenges]. *)
Record ProofChallenge := mkProofChallenge {
  pc_ID : UUID;
  pc_ChunkID : UUID;
  pc_NodeID : UUID;
  pc_Seed : list byte;
  pc_Difficulty : Z;
  pc_Status : string;
  pc_ProofHash : option string;
  pc_DurationMs : option Z;
  pc_VerifiedAt : option Z;
  pc_CreatedAt : Z
}.

(** The coordinator's relational store: each table is the list of its
    rows. *)
Record DB := mkDB {
  storage_nodes : list StorageNode;
  chunks : list ChunkRow;
  chunk_assignments : list ChunkAssignment;
  proof_challenges : list ProofChallenge
}.

Definition with_nodes (db : DB) (t : list StorageNode) : DB :=
  mkDB t (chunks db) (chunk_assignments db) (proof_challenges db).

Definition with_chunks (db : DB) (t : list ChunkRow) : DB :=
  mkDB (storage_nodes db) t (chunk_assignments db) (proof_challenges db).

Definition with_assignments (db : DB) (t : list ChunkAssignment) : DB :=
  mkDB (storage_nodes db) (chunks db) t (proof_challenges db).

Definition with_challenges (db : DB) (t : list ProofChallenge) : DB :=
  mkDB (storage_nodes db) (chunks db) (chunk_assignments db) t.

(** *** NodeService *)

(** [NodeService.GetNodeByPeerID] *)
Definition GetNodeByPeerID (db : DB) (peerID : string) : result StorageNode :=
  match find (fun n => String.eqb (PeerID n) peerID) (storage_nodes db) with
  | Some node => Ok node
  | None => Err "node not found"
  end.

(** The columns [GetAllNodes] selects; [api_key_hash] and [updated_at]
    are not among them and keep their zero values. *)
Definition scan_listed (n : StorageNode) : StorageNode :=
  mkStorageNode (ID n) (Name n) (PeerID n) (PublicKey n) (Address n) ""
                (Status n) (TotalStorageBytes n) (UsedStorageBytes n)
                (EarnedCredits n) (UptimePercentage n) (LastHeartbeat n)
                (CreatedAt n) 0.

(** [status = 'active'] *)
Definition has_active_status (n : StorageNode) : bool :=
  String.eqb (Status n) "active".

(** [NodeService.GetAllNodes]: [... FROM storage_nodes WHERE status =
    'active'] *)
Definition GetAllNodes (db : DB) : list StorageNode :=
  map scan_listed (List.filter has_active_status (storage_nodes db)).

(** [UPDATE storage_nodes SET last_heartbeat = $1, used_storage_bytes =
    $2, updated_at = $3 WHERE id = $4] *)
Definition beat (now usedBytes : Z) (n : StorageNode) : StorageNode :=
  mkStorageNode (ID n) (Name n) (PeerID n) (PublicKey n) (Address n)
                (APIKeyHash n) (Status n) (TotalStorageBytes n) usedBytes
                (EarnedCredits n) (UptimePercentage n) (Some now)
                (CreatedAt n) now.

(** [NodeService.UpdateHeartbeat] *)
Definition UpdateHeartbeat (exec_ok : bool) (now : Z) (db : DB)
    (nodeID : UUID) (usedBytes : Z) : result unit * DB :=
  if exec_ok
  then (Ok tt,
        with_nodes db
          (map (fun n => if N.eqb (ID n) nodeID then beat now usedBytes n else n)
               (storage_nodes db)))
  else (Err "exec failed", db).

(** [NodeService.GetAPIKeyHash]: [... WHERE peer_id = $1 AND status =
    'active'] *)
Definition GetAPIKeyHash (db : DB) (peerID : string) : result string :=
  match find (fun n => String.eqb (PeerID n) peerID
                       && String.eqb (Status n) "active")
             (storage_nodes db) with
  | Some n => Ok (APIKeyHash n)
  | None => Err "no rows in result set"
  end.

(** *** The heartbeat endpoint *)

Record HeartbeatRequest := mkHeartbeatRequest {
  UsedStorageBytes_req : Z
}.

(** What the handlers read from a request: two headers and the JSON body
    ([None] when it does not bind). *)
Record Request := mkRequest {
  X_Peer_ID : string;
  X_API_Key : string;
  body : option HeartbeatRequest
}.

(** The HTTP status of the answer and, on success, the [earned_credits]
    field. *)
Record Response := mkResponse {
  StatusCode : Z;
  earned_credits : option Z
}.

(** [NodeHandler.Heartbeat] *)
Definition Heartbeat (exec_ok : bool) (now : Z) (db : DB) (req : Request)
    : Response * DB :=
  if String.eqb (X_Peer_ID req) "" then (mkResponse 400 None, db)
  else
    match body req with
    | None => (mkResponse 400 None, db)
    | Some r =>
        match GetNodeByPeerID db (X_Peer_ID req) with
        | Ok node =>
            match UpdateHeartbeat exec_ok now db (ID node)
                                  (UsedStorageBytes_req r) with
            | (Ok _, db') => (mkResponse 200 (Some (EarnedCredits node)), db')
            | (_, db') => (mkResponse 500 None, db')
            end
        | _ => (mkResponse 404 None, db)
        end
    end.

(** [middleware.NodeAuthMiddleware(nodeService.GetAPIKeyHash)] in front of
    a handler; [subtle.ConstantTimeCompare] yields 1 exactly on equal byte
    strings. *)
Definition NodeAuthMiddleware (db : DB) (req : Request)
    (next : Response * DB) : Response * DB :=
  if String.eqb (X_Peer_ID req) "" || String.eqb (X_API_Key req) ""
  then (mkResponse 401 None, db)
  else
    match GetAPIKeyHash db (X_Peer_ID req) with
    | Ok expectedHash =>
        if String.eqb (X_API_Key req) expectedHash then next
        else (mkResponse 401 None, db)
    | _ => (mkResponse 401 None, db)
    end.

(** [POST /api/v1/nodes/heartbeat] as the router wires it. *)
Definition heartbeat_route (exec_ok : bool) (now : Z) (db : DB)
    (req : Request) : Response * DB :=
  NodeAuthMiddleware db req (Heartbeat exec_ok now db req).

(** *** ChunkService *)

(** The loop over [nodeIDs] of [StoreChunk]: one [INSERT INTO
    chunk_assignments (id, chunk_id, node_id)] per node, the [status]
    column taking its default ['active']; the [k]-th write of the call
    succeeds when [exec_ok k] holds and the [k]-th identifier drawn is
    [fresh k]. *)
Fixpoint insert_assignments (exec_ok : nat -> bool) (now : Z)
    (fresh : nat -> UUID) (k : nat) (chunkID : UUID) (nodeIDs : list UUID)
    (t : list ChunkAssignment) : bool * list ChunkAssignment :=
  match nodeIDs with
  | [] => (true, t)
  | nodeID :: rest =>
      if exec_ok k
      then insert_assignments exec_ok now fresh (S k) chunkID rest
             (t ++ [mkChunkAssignment (fresh k) chunkID nodeID "active" now])
      else (false, t)
  end.

(** [ChunkService.StoreChunk] of the coordinator. *)
Definition StoreChunk (exec_ok : nat -> bool) (now : Z) (fresh : nat -> UUID)
    (db : DB) (fileID : UUID) (chunkIndex : Z) (data : list byte)
    (nodeIDs : list UUID) : result Chunk * DB :=
  let hashStr := hex (sha256 data) in
  let chunk := mkChunk (fresh O) fileID chunkIndex hashStr
                       (Z.of_nat (length data)) in
  if exec_ok O then
    let db1 := with_chunks db (chunks db ++ [mkChunkRow chunk data]) in
    match insert_assignments exec_ok now fresh 1 (chunk_ID chunk) nodeIDs
                             (chunk_assignments db1) with
    | (true, t) => (Ok chunk, with_assignments db1 t)
    | (false, t) =>
        (Err "failed to create chunk assignment", with_assignments db1 t)
    end
  else (Err "failed to insert chunk", db).

(** [ChunkService.SelectNodesForChunks]; the slice [nodes[:replicaCount]]
    panics for a negative bound. *)
Definition SelectNodesForChunks (db : DB) (replicaCount : Z)
    : result (list StorageNode) :=
  let nodes := GetAllNodes db in
  if Z.of_nat (length nodes) <? replicaCount
  then Err "not enough active nodes"
  else if replicaCount <? 0 then Panic
  else Ok (take (Z.to_nat replicaCount) nodes).

(** *** ProofService *)

(** [ProofService.CreateChallenge]; [id] and [seed] are what [uuid.New()]
    and [rand.Read] deliver, [difficulty] is the service's setting. The row
    inserted takes the default of [created_at], the current time; the struct
    returned keeps Go's zero value for it. *)
Definition CreateChallenge (exec_ok : bool) (now : Z) (id : UUID)
    (seed : list byte) (difficulty : Z) (db : DB) (chunkID nodeID : UUID)
    : result ProofChallenge * DB :=
  let challenge := mkProofChallenge id chunkID nodeID seed difficulty
                                    "pending" None None None 0 in
  let row := mkProofChallenge id chunkID nodeID seed difficulty
                              "pending" None None None now in
  if exec_ok
  then (Ok challenge, with_challenges db (proof_challenges db ++ [row]))
  else (Err "failed to create challenge", db).

(** [ProofService.generateExpectedProof] *)
Definition generateExpectedProof (seed : list byte) (chunkID : string) : string :=
  let data := seed ++ bytes chunkID in
  let hash := sha256 data in
  hex hash.

(** The three [UPDATE proof_challenges ... WHERE id = $n] statements. *)
Definition update_challenge (f : ProofChallenge -> ProofChallenge)
    (challengeID : UUID) (db : DB) : DB :=
  with_challenges db
    (map (fun c => if N.eqb (pc_ID c) challengeID then f c else c)
         (proof_challenges db)).

Definition set_timed_out (durationMs now : Z) (c : ProofChallenge) :=
  mkProofChallenge (pc_ID c) (pc_ChunkID c) (pc_NodeID c) (pc_Seed c)
    (pc_Difficulty c) "failed" (pc_ProofHash c) (Some durationMs) (Some now)
    (pc_CreatedAt c).

Definition set_decided (status proofHash : string) (durationMs now : Z)
    (c : ProofChallenge) :=
  mkProofChallenge (pc_ID c) (pc_ChunkID c) (pc_NodeID c) (pc_Seed c)
    (pc_Difficulty c) status (Some proofHash) (Some durationMs) (Some now)
    (pc_CreatedAt c).

Definition find_challenge (db : DB) (challengeID : UUID) : option ProofChallenge :=
  find (fun c => N.eqb (pc_ID c) challengeID) (proof_challenges db).

(** [s.generateExpectedProof(challenge.Seed, challenge.ChunkID.String())] *)
Definition expected_hash (challenge : ProofChallenge) : string :=
  generateExpectedProof (pc_Seed challenge)
                        (UUID_String (pc_ChunkID challenge)).

(** [ProofService.VerifyProof]. The outcome of the [UPDATE] is ignored on
    the two failure branches and reported on the last one. *)
Definition VerifyProof (exec_ok : bool) (now : Z) (db : DB)
    (challengeID : UUID) (proofHash : string) (durationMs : Z)
    : result unit * DB :=
  match find_challenge db challengeID with
  | None => (Err "challenge not found", db)
  | Some challenge =>
      if 2000 <? durationMs then
        (Err "proof verification timed out",
         if exec_ok
         then update_challenge (set_timed_out durationMs now) challengeID db
         else db)
      else
        let expectedHash := expected_hash challenge in
        if negb (String.eqb proofHash expectedHash) then
          (Err "invalid proof hash",
           if exec_ok
           then update_challenge (set_decided "failed" proofHash durationMs now)
                                 challengeID db
           else db)
        else if exec_ok then
          (Ok tt,
           update_challenge (set_decided "verified" proofHash durationMs now)
                            challengeID db)
        else (Err "failed to update challenge", db)
  end.

(** *** The specification's notions, in its words *)

(** A peer is eligible for a chunk when its status is active, its last
    heartbeat lies within the liveness window, its free capacity is at
    least the chunk's size, and no non-deleted assignment binds the chunk
    to it. *)
Definition spec_eligible (now window size : Z) (chunkID : UUID) (db : DB)
    (n : StorageNode) : bool :=
  String.eqb (Status n) "active"
  && match LastHeartbeat n with
     | Some t => now - t <=? window
     | None => false
     end
  && (size <=? TotalStorageBytes n - UsedStorageBytes n)
  && negb (existsb (fun a => N.eqb (asg_ChunkID a) chunkID
                             && N.eqb (asg_NodeID a) (ID n)
                             && negb (String.eqb (asg_Status a) "deleted"))
                   (chunk_assignments db)).

End Coordinator.

(* ===================================================================== *)
(** ** The coordinator: registration, listings, files, credits, settings  *)
(* ===================================================================== *)

Module Registry.
Import Crypto Coordinator.

(** Go's [int64] arithmetic wraps around. *)
Definition wrap_int64 (z : Z) : Z :=
  (z + 9223372036854775808) mod 18446744073709551616 - 9223372036854775808.

(** [RegisterNodeRequest] *)
Record RegisterNodeRequest := mkRegisterNodeRequest {
  req_Name : string;
  req_PeerID : string;
  req_PublicKey : list byte;
  req_Address : string;
  req_TotalStorageGB : Z
}.

(** [generateAPIKey]: [fmt.Sprintf("fsn_%s", uuid.New().String())] *)
Definition generateAPIKey (u : UUID) : string := "fsn_" +:+ UUID_String u.

(** [hashAPIKey]: the key itself. *)
Definition hashAPIKey (apiKey : string) : string := apiKey.

(** [NodeService.RegisterNode]. [keyUUID] and [nodeUUID] are the two values
    [uuid.New()] delivers, in the order of the calls. The row inserted takes
    the defaults of the columns the [INSERT] does not name (uptime 100.00,
    no heartbeat, both timestamps now); the struct returned keeps Go's zero
    values for the timestamps. [exec_ok] is the outcome of the [INSERT];
    the [SELECT EXISTS] before it is taken to answer. *)
Definition RegisterNode (exec_ok : bool) (now : Z) (keyUUID nodeUUID : UUID)
    (db : DB) (req : RegisterNodeRequest)
    : result (StorageNode * string) * DB :=
  if existsb (fun n => String.eqb (PeerID n) (req_PeerID req)) (storage_nodes db)
  then (Err "node with this peer_id already exists", db)
  else
    let apiKey := generateAPIKey keyUUID in
    let apiKeyHash := hashAPIKey apiKey in
    let total := wrap_int64 (wrap_int64 (req_TotalStorageGB req) * 1073741824) in
    let node := mkStorageNode nodeUUID (req_Name req) (req_PeerID req)
                  (req_PublicKey req) (req_Address req) apiKeyHash "active"
                  total 0 0 10000 None 0 0 in
    let row := mkStorageNode nodeUUID (req_Name req) (req_PeerID req)
                 (req_PublicKey req) (req_Address req) apiKeyHash "active"
                 total 0 0 10000 None now now in
    if exec_ok
    then (Ok (node, apiKey), with_nodes db (storage_nodes db ++ [row]))
    else (Err "failed to create node", db).

(** The columns [GetPendingChallenges] selects; the proof hash, duration
    and verification time are not among them. *)
Definition scan_pending (c : ProofChallenge) : ProofChallenge :=
  mkProofChallenge (pc_ID c) (pc_ChunkID c) (pc_NodeID c) (pc_Seed c)
                   (pc_Difficulty c) (pc_Status c) None None None
                   (pc_CreatedAt c).

(** [ProofService.GetPendingChallenges]: [WHERE node_id = $1 AND status =
    'pending'] *)
Definition GetPendingChallenges (db : DB) (nodeID : UUID) : list ProofChallenge :=
  map scan_pending
      (List.filter (fun c => N.eqb (pc_NodeID c) nodeID
                             && String.eqb (pc_Status c) "pending")
                   (proof_challenges db)).

(** [ChunkService.GetChunkAssignments]: the assignments of the chunk joined
    with their nodes, [WHERE ca.chunk_id = $1 AND ca.status = 'active' AND
    sn.status = 'active']. The query has no [ORDER BY]; the rows are listed
    here in the order of the assignment table. *)
Definition GetChunkAssignments (db : DB) (chunkID : UUID) : list ChunkAssignment :=
  flat_map
    (fun a =>
       map (fun _ => a)
           (List.filter (fun n => N.eqb (ID n) (asg_NodeID a)
                                  && String.eqb (Status n) "active")
                        (storage_nodes db)))
    (List.filter (fun a => N.eqb (asg_ChunkID a) chunkID
                           && String.eqb (asg_Status a) "active")
                 (chunk_assignments db)).

(** [ORDER BY chunk_index]: insertion into a list sorted by index, before
    the first row whose index is not smaller. *)
Fixpoint insert_by_index (r : ChunkRow) (sorted : list ChunkRow) : list ChunkRow :=
  match sorted with
  | [] => [r]
  | x :: rest =>
      if chunk_ChunkIndex (row_chunk r) <=? chunk_ChunkIndex (row_chunk x)
      then r :: sorted
      else x :: insert_by_index r rest
  end.

Definition order_by_index (rows : list ChunkRow) : list ChunkRow :=
  foldr insert_by_index [] rows.

Definition rows_of_file (db : DB) (fileID : UUID) : list ChunkRow :=
  order_by_index
    (List.filter (fun r => N.eqb (chunk_FileID (row_chunk r)) fileID) (chunks db)).

(** [ChunkService.GetChunksByFile] *)
Definition GetChunksByFile (db : DB) (fileID : UUID) : list Chunk :=
  map row_chunk (rows_of_file db fileID).

(** [ChunkService.GetChunksByFileWithData]: [chunks[chunkIndex] = data] for
    each row in turn. *)
Definition GetChunksByFileWithData (db : DB) (fileID : UUID)
    : gmap Z (list byte) :=
  foldl (fun m r => <[chunk_ChunkIndex (row_chunk r) := row_data r]> m)
        ∅ (rows_of_file db fileID).

End Registry.

Module Cipher.

(** [aes.NewCipher] accepts keys of 16, 24 or 32 bytes. *)
Definition aes_key_ok (key : list byte) : bool :=
  let n := length key in
  (n =? 16)%nat || (n =? 24)%nat || (n =? 32)%nat.

(** [gcm.NonceSize()] of the standard GCM mode. *)
Definition NonceSize : nat := 12.

Section AEAD.
(** AES-256-GCM itself is library code: [seal key nonce plaintext] is what
    [gcm.Seal] appends (ciphertext and tag), [open key nonce sealed] what
    [gcm.Open] returns, [None] when authentication fails. *)
Variable seal : list byte -> list byte -> list byte -> list byte.
Variable open : list byte -> list byte -> list byte -> option (list byte).

(** [EncryptChunk]; [nonce] is what [io.ReadFull(rand.Reader, nonce)]
    delivers. [gcm.Seal(nonce, nonce, data, nil)] appends to the nonce. *)
Definition EncryptChunk (nonce data key : list byte) : result (list byte) :=
  if aes_key_ok key then Ok (nonce ++ seal key nonce data)
  else Err "crypto/aes: invalid key size".

(** [DecryptChunk] *)
Definition DecryptChunk (data key : list byte) : result (list byte) :=
  if aes_key_ok key then
    if (length data <? NonceSize)%nat then Err "ciphertext too short"
    else
      let nonce := take NonceSize data in
      let ciphertext := drop NonceSize data in
      match open key nonce ciphertext with
      | Some plain => Ok plain
      | None => Err "cipher: message authentication failed"
      end
  else Err "crypto/aes: invalid key size".

End AEAD.

End Cipher.

Module Catalog.
Import Crypto Coordinator Registry Cipher.

(** [models.File], a row of [files]. *)
Record File := mkFile {
  file_ID : UUID;
  file_UserID : UUID;
  file_Filename : string;
  file_SizeBytes : Z;
  file_MimeType : string;
  file_EncryptionKey : list byte;
  file_Status : string;
  file_ChunkCount : Z;
  file_CreatedAt : Z;
  file_UpdatedAt : Z
}.

(** The coordinator's store with the [files] table next to the others. *)
Record Site := mkSite {
  files : list File;
  db : DB
}.

(** [FileService.CreateFile]; [id] is what [uuid.New()] delivers. The
    struct returned keeps zero timestamps, the row has the current time. *)
Definition CreateFile (exec_ok : bool) (now : Z) (id : UUID) (s : Site)
    (userID : UUID) (filename : string) (sizeBytes : Z) (mimeType : string)
    (encryptionKey : list byte) (chunkCount : Z) : result File * Site :=
  let file := mkFile id userID filename sizeBytes mimeType encryptionKey
                     "uploading" chunkCount 0 0 in
  let row := mkFile id userID filename sizeBytes mimeType encryptionKey
                    "uploading" chunkCount now now in
  if exec_ok then (Ok file, mkSite (files s ++ [row]) (db s))
  else (Err "failed to create file", s).

(** [FileService.GetFile] *)
Definition GetFile (s : Site) (fileID : UUID) : result File :=
  match find (fun f => N.eqb (file_ID f) fileID) (files s) with
  | Some f => Ok f
  | None => Err "file not found"
  end.

(** [FileService.MarkFileComplete]: [UPDATE files SET status = 'ready',
    updated_at = $1 WHERE id = $2] *)
Definition MarkFileComplete (exec_ok : bool) (now : Z) (s : Site)
    (fileID : UUID) : result unit * Site :=
  if exec_ok
  then (Ok tt,
        mkSite (map (fun f => if N.eqb (file_ID f) fileID
                              then mkFile (file_ID f) (file_UserID f)
                                     (file_Filename f) (file_SizeBytes f)
                                     (file_MimeType f) (file_EncryptionKey f)
                                     "ready" (file_ChunkCount f)
                                     (file_CreatedAt f) now
                              else f) (files s))
               (db s))
  else (Err "exec failed", s).

(** [FileService.DeleteFile]: [DELETE FROM files WHERE id = $1]. The schema
    declares [chunks.file_id], [chunk_assignments.chunk_id] and
    [proof_challenges.chunk_id] with [ON DELETE CASCADE], so the rows that
    hang on a deleted file go with it; without a row for the file nothing
    is deleted. *)
Definition of_file (fileID : UUID) (r : ChunkRow) : bool :=
  N.eqb (chunk_FileID (row_chunk r)) fileID.

Definition chunk_ids_of_file (d : DB) (fileID : UUID) : list UUID :=
  map (fun r => chunk_ID (row_chunk r)) (List.filter (of_file fileID) (chunks d)).

Definition among (ids : list UUID) (u : UUID) : bool :=
  existsb (N.eqb u) ids.

Definition DeleteFile (exec_ok : bool) (s : Site) (fileID : UUID)
    : result unit * Site :=
  if negb exec_ok then (Err "exec failed", s)
  else if negb (existsb (fun f => N.eqb (file_ID f) fileID) (files s))
  then (Ok tt, s)
  else
    let gone := chunk_ids_of_file (db s) fileID in
    (Ok tt,
     mkSite
       (List.filter (fun f => negb (N.eqb (file_ID f) fileID)) (files s))
       (mkDB (storage_nodes (db s))
             (List.filter (fun r => negb (of_file fileID r)) (chunks (db s)))
             (List.filter (fun a => negb (among gone (asg_ChunkID a)))
                          (chunk_assignments (db s)))
             (List.filter (fun c => negb (among gone (pc_ChunkID c)))
                          (proof_challenges (db s))))).

(** What [FileHandler.DownloadFile] reads from the request: the [:id]
    parameter and the user id the JWT middleware left, each [None] when
    [uuid.Parse] rejects it. *)
Record DownloadRequest := mkDownloadRequest {
  param_id : option UUID;
  token_user : option UUID
}.

(** The HTTP status and, on success, the bytes sent. *)
Record Download := mkDownload {
  download_code : Z;
  download_body : list byte
}.

Section Download.
Variable open : list byte -> list byte -> list byte -> option (list byte).

(** The loop of [DownloadFile]: [for i := 0; i < file.ChunkCount; i++],
    stopping with status 500 at a missing chunk or a failed decryption;
    [todo] rounds are left, [acc] is [decryptedData] so far. *)
Fixpoint reassemble (chunks : gmap Z (list byte)) (key : list byte)
    (todo : nat) (i : Z) (acc : list byte) : Download :=
  match todo with
  | O => mkDownload 200 acc
  | S todo' =>
      match chunks !! i with
      | None => mkDownload 500 []
      | Some chunkData =>
          match DecryptChunk open chunkData key with
          | Ok decrypted =>
              reassemble chunks key todo' (i + 1) (acc ++ decrypted)
          | _ => mkDownload 500 []
          end
      end
  end.

(** [FileHandler.DownloadFile]; the query of [GetChunksByFileWithData] is
    taken to answer. *)
Definition DownloadFile (s : Site) (req : DownloadRequest) : Download :=
  match param_id req with
  | None => mkDownload 400 []
  | Some fileID =>
      match token_user req with
      | None => mkDownload 400 []
      | Some userID =>
          match GetFile s fileID with
          | Ok file =>
              if negb (N.eqb (file_UserID file) userID) then mkDownload 403 []
              else if negb (String.eqb (file_Status file) "ready")
              then mkDownload 400 []
              else
                reassemble (GetChunksByFileWithData (db s) fileID)
                           (file_EncryptionKey file)
                           (Z.to_nat (file_ChunkCount file)) 0 []
          | _ => mkDownload 404 []
          end
      end
  end.

End Download.

End Catalog.

Module Ledger.
Import Coordinator.

(** [models.User], a row of [users]. *)
Record User := mkUser {
  user_ID : UUID;
  user_Email : string;
  user_PasswordHash : string;
  user_Credits : Z;
  user_CreatedAt : Z;
  user_UpdatedAt : Z
}.

(** [models.CreditTransaction], a row of [credit_transactions]. *)
Record CreditTransaction := mkCreditTransaction {
  ct_ID : UUID;
  ct_UserID : option UUID;
  ct_NodeID : option UUID;
  ct_TransactionType : string;
  ct_Amount : Z;
  ct_Description : string;
  ct_CreatedAt : Z
}.

Record Accounts := mkAccounts {
  users : list User;
  credit_transactions : list CreditTransaction
}.

(** Where a transaction can fail: at [Begin], at the [UPDATE], at the
    [INSERT] or at [Commit]. *)
Inductive tx_fault := TxOk | BeginFails | UpdateFails | InsertFails | CommitFails.

Definition fits_bigint (z : Z) : bool :=
  (-9223372036854775808 <=? z) && (z <=? 9223372036854775807).

(** The columns [GetUser] selects: [id, email, credits, created_at,
    updated_at]; the password hash is not among them and stays empty. *)
Definition scan_user (u : User) : User :=
  mkUser (user_ID u) (user_Email u) "" (user_Credits u)
         (user_CreatedAt u) (user_UpdatedAt u).

(** [AuthService.GetUser] *)
Definition GetUser (a : Accounts) (userID : UUID) : result User :=
  match find (fun u => N.eqb (user_ID u) userID) (users a) with
  | Some u => Ok (scan_user u)
  | None => Err "user not found"
  end.

(** [AuthService.UpdateCredits]. Every failure rolls the transaction back.
    The [UPDATE] fails by itself when a sum leaves the range of [BIGINT],
    and the [INSERT] when the user does not exist ([user_id] references
    [users]); [txID] is the [gen_random_uuid()] default of the new row. *)
Definition UpdateCredits (f : tx_fault) (now : Z) (txID : UUID) (a : Accounts)
    (userID : UUID) (amount : Z) (description : string)
    : result unit * Accounts :=
  match f with
  | BeginFails => (Err "failed to begin transaction", a)
  | UpdateFails => (Err "failed to update credits", a)
  | InsertFails => (Err "failed to record transaction", a)
  | CommitFails => (Err "commit failed", a)
  | TxOk =>
      let mine := fun u => N.eqb (user_ID u) userID in
      if negb (forallb (fun u => fits_bigint (user_Credits u + amount))
                       (List.filter mine (users a)))
      then (Err "failed to update credits", a)
      else
        let transactionType := if 0 <=? amount then "credit" else "debit" in
        if negb (existsb mine (users a))
        then (Err "failed to record transaction", a)
        else
          (Ok tt,
           mkAccounts
             (map (fun u => if mine u
                            then mkUser (user_ID u) (user_Email u)
                                   (user_PasswordHash u)
                                   (user_Credits u + amount)
                                   (user_CreatedAt u) now
                            else u) (users a))
             (credit_transactions a ++
                [mkCreditTransaction txID (Some userID) None transactionType
                                     amount description now]))
  end.

(** The sum of the amounts recorded for a user. *)
Definition recorded (txs : list CreditTransaction) (userID : UUID) : Z :=
  foldr (fun t acc =>
           match ct_UserID t with
           | Some u => if N.eqb u userID then ct_Amount t + acc else acc
           | None => acc
           end) 0 txs.

End Ledger.

Module Settings.

(** The coordinator's [config.Config]. *)
Record ServerConfig := mkServerConfig {
  Host : string;
  Port : Z;
  ReadTimeout : Z;
  WriteTimeout : Z
}.

Record DatabaseConfig := mkDatabaseConfig {
  db_Host : string;
  db_Port : Z;
  db_User : string;
  db_Password : string;
  db_Database : string;
  db_SSLMode : string
}.

Record P2PConfig := mkP2PConfig {
  ListenAddresses : list string;
  BootstrapPeers : list string;
  EnableQUIC : bool;
  EnableTCP : bool
}.

Record StorageConfig := mkStorageConfig {
  ChunkSizeBytes : Z;
  DefaultReplicas : Z;
  ProofDifficulty : Z;
  ProofIntervalHours : Z;
  StorageCreditPerGBMonth : Z
}.

Record Config := mkConfig {
  Server : ServerConfig;
  Database : DatabaseConfig;
  P2P : P2PConfig;
  Storage : StorageConfig
}.

Definition or_string (s d : string) : string :=
  if String.eqb s "" then d else s.

Definition or_int (z d : Z) : Z := if z =? 0 then d else z.

(** [Config.SetDefaults] *)
Definition SetDefaults (c : Config) : Config :=
  let both_off := negb (EnableTCP (P2P c)) && negb (EnableQUIC (P2P c)) in
  mkConfig
    (mkServerConfig (or_string (Host (Server c)) "0.0.0.0")
                    (or_int (Port (Server c)) 8080)
                    (or_int (ReadTimeout (Server c)) 30)
                    (or_int (WriteTimeout (Server c)) 30))
    (mkDatabaseConfig (or_string (db_Host (Database c)) "localhost")
                      (or_int (db_Port (Database c)) 5432)
                      (or_string (db_User (Database c)) "postgres")
                      (db_Password (Database c))
                      (or_string (db_Database (Database c)) "coordinator")
                      (or_string (db_SSLMode (Database c)) "disable"))
    (mkP2PConfig (ListenAddresses (P2P c)) (BootstrapPeers (P2P c))
                 (if both_off then true else EnableQUIC (P2P c))
                 (if both_off then true else EnableTCP (P2P c)))
    (mkStorageConfig (or_int (ChunkSizeBytes (Storage c)) (256 * 1024))
                     (or_int (DefaultReplicas (Storage c)) 3)
                     (or_int (ProofDifficulty (Storage c)) 1000)
                     (or_int (ProofIntervalHours (Storage c)) 4)
                     (or_int (StorageCreditPerGBMonth (Storage c)) 100)).

(** [DefaultConfig]: the defaults of the zero value. *)
Definition DefaultConfig : Config :=
  SetDefaults (mkConfig (mkServerConfig "" 0 0 0)
                        (mkDatabaseConfig "" 0 "" "" "" "")
                        (mkP2PConfig [] [] false false)
                        (mkStorageConfig 0 0 0 0 0)).

End Settings.

(* ===================================================================== *)
(** ** Proof steps shared by the examples                                 *)
(* ===================================================================== *)

(** A closed statement is settled by evaluating both sides; a conjunction
    of closed statements, one conjunct after the other. *)
Ltac evaluate := vm_compute; first [reflexivity | discriminate].
Ltac evaluate_all := repeat (split; [evaluate|]); evaluate.

(* ===================================================================== *)
(** ** Concrete situations used by the examples                           *)
(* ===================================================================== *)

Module Scenario.
Import Crypto.

Definition hello : list byte := bytes "hello".
Definition hello_hash : string :=
  "2cf24dba5fb0a30e26e83b2ac5b9e29e1b161e5c1fa7425e73043362938b9824".
Definition zero_seed : list byte := repeat x00 32.

(** A peer that has stored the five bytes of "hello" as chunk "abcd" of
    file "file-1", with the right hash. *)
Definition peer_with_hello : StorageNode.ChunkService :=
  snd (StorageNode.StoreChunk StorageNode.NoFault 10
         (StorageNode.NewChunkService "data/chunks")
         "abcd" "file-1" 0 hello_hash hello).

(** The same peer after the chunk has been deleted. *)
Definition peer_after_delete : StorageNode.ChunkService :=
  snd (StorageNode.DeleteChunk true 20 peer_with_hello "abcd").

(** A peer that was handed "hello" under a hash that is not its digest. *)
Definition peer_with_wrong_hash : StorageNode.ChunkService :=
  snd (StorageNode.StoreChunk StorageNode.NoFault 10
         (StorageNode.NewChunkService "data/chunks")
         "abcd" "file-1" 0 "deadbeef" hello).

(** *** Coordinator side *)

(** A registered node that is marked active but has never sent a
    heartbeat and has no free space left. *)
Definition full_silent_node : Coordinator.StorageNode :=
  Coordinator.mkStorageNode 1 "node-a" "peer-a" [] "/ip4/10.0.0.1/tcp/4001"
    "fsn_key_a" "active" 1073741824 1073741824 0 10000 None 50 50.

(** A node whose status has been set to dead. *)
Definition dead_node : Coordinator.StorageNode :=
  Coordinator.mkStorageNode 2 "node-b" "peer-b" [] "/ip4/10.0.0.2/tcp/4001"
    "fsn_key_b" "dead" 1073741824 0 0 9000 (Some 60) 50 60.

Definition registry : Coordinator.DB :=
  Coordinator.mkDB [full_silent_node; dead_node] [] [] [].

Definition all_writes_succeed : nat -> bool := fun _ => true.

(** Identifiers handed out by [uuid.New()]: 5, 6, 7, ... *)
Definition fresh_ids : nat -> Coordinator.UUID := fun k => N.of_nat (5 + k).

(** The coordinator stores "hello" as chunk 0 of file 9 and assigns it to
    node 1. *)
Definition after_upload : Coordinator.DB :=
  snd (Coordinator.StoreChunk all_writes_succeed 100 fresh_ids registry
                              9 0 hello [1%N]).

(** A challenge (id 40) on that chunk for node 1, seed of 32 zero bytes,
    difficulty 2. *)
Definition challenged : Coordinator.DB :=
  snd (Coordinator.CreateChallenge true 200 40 zero_seed 2 after_upload 5 1).

(** What [VerifyProof] expects for that challenge. *)
Definition expected_for_challenge : string :=
  "1f1d3ceff0b8cfb0254ce52e2755e0d55634a2093a22611bbcf4030e82ade626".

(** The peer holding the chunk under the coordinator's identifier. *)
Definition honest_peer : StorageNode.ChunkService :=
  snd (StorageNode.StoreChunk StorageNode.NoFault 110
         (StorageNode.NewChunkService "data/chunks")
         (Coordinator.UUID_String 5) (Coordinator.UUID_String 9) 0
         hello_hash hello).

Definition heartbeat_of_dead_node : Coordinator.Request :=
  Coordinator.mkRequest "peer-b" "fsn_key_b"
                        (Some (Coordinator.mkHeartbeatRequest 4096)).

End Scenario.

(* ===================================================================== *)
(** ** Further concrete situations                                        *)
(* ===================================================================== *)

Module Scenario2.
Import Crypto Scenario.

(** A stand-in for the cipher in the examples: sealing reverses the bytes,
    opening reverses them back. *)
Definition toy_seal (key nonce plain : list byte) : list byte := rev plain.
Definition toy_open (key nonce sealed : list byte) : option (list byte) :=
  Some (rev sealed).

Definition zero_nonce : list byte := repeat x00 12.
Definition file_key : list byte := repeat x01 32.

(** File 9 of user 3, ready, made of one chunk that holds the sealed bytes
    of "hello"; the chunk is chunk 5 and is assigned to node 1, and there is
    a challenge on it. *)
Definition sealed_upload : Coordinator.DB :=
  snd (Coordinator.CreateChallenge true 200 40 zero_seed 2
         (snd (Coordinator.StoreChunk all_writes_succeed 100 fresh_ids registry
                 9 0 (zero_nonce ++ toy_seal file_key zero_nonce hello) [1%N]))
         5 1).

Definition site_ready : Catalog.Site :=
  Catalog.mkSite
    [Catalog.mkFile 9 3 "hello.txt" 5 "text/plain" file_key "ready" 1 100 120]
    sealed_upload.

(** Two users, one of them with 50 credits and one recorded purchase. *)
Definition accounts : Ledger.Accounts :=
  Ledger.mkAccounts
    [Ledger.mkUser 3 "a@example.com" "x" 50 10 10;
     Ledger.mkUser 4 "b@example.com" "y" 0 11 11]
    [Ledger.mkCreditTransaction 21 (Some 3%N) None "credit" 50 "purchase" 10].

End Scenario2.

(* ===================================================================== *)
(** ** Properties of the storage node                                     *)
(* ===================================================================== *)

Module StorageNodeFacts.
Import Crypto StorageNode Scenario.

(** *** Known answers of the hash *)

Example sha256_empty :
  hex (sha256 []) =
  "e3b0c44298fc1c149afbf4c8996fb92427ae41e4649b934ca495991b7852b855".
Proof. vm_compute. reflexivity. Qed.

Example sha256_hello : hex (sha256 hello) = hello_hash.
Proof. vm_compute. reflexivity. Qed.

Example sha256_two_blocks :
  hex (sha256 (repeat "a"%byte 100)) =
  "2816597888e4a0d3a36b82b83316ab32680eb8f00f8cd3b904d681246d285a0e".
Proof. vm_compute. reflexivity. Qed.

(** *** Strings and chunk paths *)

Lemma length_append (s1 s2 : string) :
  String.length (s1 +:+ s2) = (String.length s1 + String.length s2)%nat.
Proof. induction s1 as [|a s1 IH]; simpl; [reflexivity | now rewrite IH]. Qed.

Lemma length_substring (s : string) :
  forall n m : nat,
    (n + m <= String.length s)%nat -> String.length (substring n m s) = m.
Proof.
  induction s as [|a s IH]; intros n m Hle; simpl in *.
  - destruct n, m; simpl in *; try reflexivity; lia.
  - destruct n as [|n].
    + destruct m as [|m]; simpl; [reflexivity|]. f_equal.
      apply (IH 0%nat m). lia.
    + apply IH. lia.
Qed.

Lemma append_same_length_inj (x1 : string) :
  forall x2 y1 y2 : string,
    x1 +:+ y1 = x2 +:+ y2 -> String.length x1 = String.length x2 -> y1 = y2.
Proof.
  induction x1 as [|a x1 IH]; intros [|b x2] y1 y2 Heq Hlen;
    simpl in *; try discriminate.
  - exact Heq.
  - injection Heq as _ Heq. injection Hlen as Hlen. eauto.
Qed.

Lemma length_chunk_dir_path (dir chunkID : string) :
  (4 <= String.length chunkID)%nat ->
  String.length (chunk_dir_path dir chunkID) = (String.length dir + 6)%nat.
Proof.
  intros Hlen. unfold chunk_dir_path.
  rewrite !length_append, !length_substring by lia. simpl. lia.
Qed.

(** Distinct identifiers are kept in distinct files. *)
Lemma chunk_file_path_inj (dir id1 id2 : string) :
  (4 <= String.length id1)%nat -> (4 <= String.length id2)%nat ->
  chunk_file_path dir id1 = chunk_file_path dir id2 -> id1 = id2.
Proof.
  intros H1 H2 Heq. unfold chunk_file_path in Heq.
  apply append_same_length_inj in Heq.
  - now injection Heq.
  - now rewrite !length_chunk_dir_path.
Qed.

Example chunk_file_path_example :
  chunk_file_path "data/chunks" "abcd" = "data/chunks/ab/cd/abcd".
Proof. reflexivity. Qed.

(** *** The hashing loop *)

Lemma hash_loop_iter (n : nat) :
  forall data, hash_loop n data = Nat.iter n sha256 data.
Proof.
  induction n as [|n IH]; intros data; [reflexivity|].
  simpl hash_loop. rewrite IH. symmetry. apply Nat.iter_succ_r.
Qed.

(** *** What one operation does *)

Lemma StoreChunk_panics f now s chunkID fileID chunkIndex hash data :
  fst (StoreChunk f now s chunkID fileID chunkIndex hash data) = Panic <->
  (String.length chunkID < 4)%nat.
Proof.
  unfold StoreChunk.
  destruct (String.length chunkID <? 4)%nat eqn:E.
  - apply Nat.ltb_lt in E. simpl. tauto.
  - apply Nat.ltb_ge in E.
    split; [|lia]. destruct f as [| |[?|]|]; simpl; discriminate.
Qed.

Lemma StoreChunk_ok f now s chunkID fileID chunkIndex hash data s' :
  StoreChunk f now s chunkID fileID chunkIndex hash data = (Ok tt, s') ->
  f = NoFault /\ (4 <= String.length chunkID)%nat /\
  s' = mkChunkService (chunkDir s)
         (upsert_chunk now chunkID fileID chunkIndex hash
            (Z.of_nat (length data)) (chunk_file_path (chunkDir s) chunkID)
            (stored_chunks s))
         (<[chunk_file_path (chunkDir s) chunkID := data]> (disk s)).
Proof.
  unfold StoreChunk.
  destruct (String.length chunkID <? 4)%nat eqn:E; [discriminate|].
  apply Nat.ltb_ge in E.
  destruct f as [| |[?|]|]; intros H; try discriminate.
  injection H as <-. auto.
Qed.

Lemma StoreChunk_no_fault now s chunkID fileID chunkIndex hash data :
  (4 <= String.length chunkID)%nat ->
  StoreChunk NoFault now s chunkID fileID chunkIndex hash data =
  (Ok tt,
   mkChunkService (chunkDir s)
     (upsert_chunk now chunkID fileID chunkIndex hash
        (Z.of_nat (length data)) (chunk_file_path (chunkDir s) chunkID)
        (stored_chunks s))
     (<[chunk_file_path (chunkDir s) chunkID := data]> (disk s))).
Proof.
  intros Hlen. unfold StoreChunk.
  destruct (String.length chunkID <? 4)%nat eqn:E; [|reflexivity].
  apply Nat.ltb_lt in E. lia.
Qed.

Lemma upsert_chunk_lookup now chunkID fileID chunkIndex hash size path t :
  exists c,
    upsert_chunk now chunkID fileID chunkIndex hash size path t !! chunkID
      = Some c /\
    ID c = chunkID /\ FileID c = fileID /\ ChunkIndex c = chunkIndex /\
    Hash c = hash /\ SizeBytes c = size /\ FilePath c = path.
Proof.
  unfold upsert_chunk.
  destruct (t !! chunkID) as [old|]; rewrite lookup_insert_eq;
    eexists; (split; [reflexivity|]); simpl; repeat split.
Qed.

Lemma upsert_chunk_other now chunkID fileID chunkIndex hash size path t id :
  id <> chunkID ->
  upsert_chunk now chunkID fileID chunkIndex hash size path t !! id = t !! id.
Proof.
  intros Hne. unfold upsert_chunk.
  destruct (t !! chunkID); now rewrite lookup_insert_ne.
Qed.

(** *** The chunk stays readable while nobody overwrites it *)

Lemma holds_GetChunkData s id data :
  holds s id data -> GetChunkData s id = Ok data.
Proof.
  intros (c & Hrow & _ & Hfile). unfold GetChunkData, GetChunk.
  rewrite Hrow. simpl. now rewrite Hfile.
Qed.

Lemma StoreChunk_holds f now s id fileID chunkIndex hash data s' :
  StoreChunk f now s id fileID chunkIndex hash data = (Ok tt, s') ->
  holds s' id data /\ (4 <= String.length id)%nat.
Proof.
  intros H. apply StoreChunk_ok in H as (_ & Hlen & ->).
  split; [|exact Hlen].
  destruct (upsert_chunk_lookup now id fileID chunkIndex hash
              (Z.of_nat (length data)) (chunk_file_path (chunkDir s) id)
              (stored_chunks s))
    as (c & Hrow & _ & _ & _ & _ & _ & Hpath).
  exists c. simpl. split; [exact Hrow|]. split; [exact Hpath|].
  rewrite Hpath. apply lookup_insert_eq.
Qed.

Lemma step_chunkDir s o r s' : step s o = (r, s') -> chunkDir s' = chunkDir s.
Proof.
  destruct o as [f now chunkID fileID chunkIndex hash data|ok now chunkID];
    simpl.
  - unfold StoreChunk.
    destruct (String.length chunkID <? 4)%nat; [now intros [= _ <-]|].
    destruct f as [| |[?|]|]; now intros [= _ <-].
  - unfold DeleteChunk. destruct ok; now intros [= _ <-].
Qed.

Section Readable.
(** One chunk, stored under an identifier long enough for [StoreChunk],
    followed through operations that spare it. *)
Variable id : string.
Variable data : list byte.
Hypothesis id_long : (4 <= String.length id)%nat.

Lemma step_holds s o r s' :
  spares id o -> step s o = (r, s') -> r <> Panic ->
  holds s id data -> holds s' id data.
Proof.
  intros Hsp Hstep Hr (c & Hrow & Hpath & Hfile).
  destruct o as [f now chunkID fileID chunkIndex hash data'|ok now chunkID];
    simpl in *.
  - (* a store of another chunk *)
    unfold StoreChunk in Hstep.
    destruct (String.length chunkID <? 4)%nat eqn:E.
    { injection Hstep as <- _. contradiction. }
    apply Nat.ltb_ge in E.
    assert (Hother : chunk_file_path (chunkDir s) chunkID <> FilePath c).
    { rewrite Hpath. intros Heq. apply Hsp.
      now apply (chunk_file_path_inj (chunkDir s)). }
    destruct f as [| |[partial|]|]; injection Hstep as _ <-;
      exists c; simpl.
    + rewrite upsert_chunk_other by congruence.
      now rewrite lookup_insert_ne.
    + auto.
    + now rewrite lookup_insert_ne.
    + auto.
    + now rewrite lookup_delete_ne, lookup_insert_ne.
  - (* a delete keeps the path and the file *)
    unfold DeleteChunk in Hstep.
    destruct ok; injection Hstep as _ <-; [|exists c; auto].
    destruct (decide (chunkID = id)) as [->|Hne].
    + exists (mark_deleted now c). simpl.
      rewrite lookup_alter_eq, Hrow. simpl. auto.
    + exists c. simpl. now rewrite lookup_alter_ne.
Qed.

Lemma run_holds ops :
  forall s s',
    Forall (spares id) ops -> run s ops = Some s' ->
    holds s id data -> holds s' id data.
Proof.
  induction ops as [|o ops IH]; intros s s' Hall Hrun Hh; simpl in Hrun.
  - now injection Hrun as <-.
  - inversion Hall as [|? ? Ho Hrest]; subst.
    destruct (step s o) as [r s1] eqn:Hstep.
    assert (Hs1 : holds s1 id data).
    { eapply step_holds; eauto. intros ->. discriminate. }
    destruct r; try discriminate; eapply IH; eauto.
Qed.

End Readable.

Lemma plain_id_long id : plain_id id = true -> (4 <= String.length id)%nat.
Proof.
  unfold plain_id. intros H.
  repeat (apply andb_true_iff in H as [H _]).
  now apply Nat.leb_le.
Qed.

(** No operation on a plain identifier panics. *)
Lemma run_plain ops :
  Forall (fun o => plain_id (op_chunk o) = true) ops ->
  forall s, exists s', run s ops = Some s'.
Proof.
  induction 1 as [|o ops Ho _ IH]; intros s; simpl; [eauto|].
  destruct (step s o) as [r s1] eqn:Hstep.
  assert (Hr : r <> Panic).
  { intros ->. destruct o as [f now id fileID chunkIndex hash data|ok now id];
      simpl in *.
    - apply plain_id_long in Ho.
      assert (Hp : fst (StoreChunk f now s id fileID chunkIndex hash data)
                   = Panic) by now rewrite Hstep.
      apply StoreChunk_panics in Hp. lia.
    - unfold DeleteChunk in Hstep. now destruct ok. }
  destruct r; [apply IH | apply IH | contradiction].
Qed.

(** C9 (counterexample). The chunk id "abc" has three bytes: the slice
    [chunkID[2:4]] panics before anything is written, [StoreChunk] does not
    return, and [GetChunkData] for the id finds no chunk. *)
Lemma put_panics_on_short_id :
  StoreChunk NoFault 10 (NewChunkService "data/chunks")
             "abc" "file-1" 0 hello_hash hello
    = (Panic, NewChunkService "data/chunks") /\
  GetChunkData (NewChunkService "data/chunks") "abc" = Err "chunk not found".
Proof. split; reflexivity. Qed.

(** C9 (as amended). For every plain chunk id (at least four bytes, and
    its first two bytes, its next two bytes and the id itself are file
    names) and every byte sequence: [StoreChunk] returns without error when
    no write fails; and once it has returned without error, then after any
    further operations on other plain chunk ids (stores, failing ones
    included, and deletes) [GetChunkData] returns exactly the bytes that
    were given to [StoreChunk]. *)
Theorem get_after_put_returns_bytes
    now s chunkID fileID chunkIndex hash data ops :
  plain_id chunkID = true ->
  Forall (fun o => plain_id (op_chunk o) = true /\ op_chunk o <> chunkID) ops ->
  (exists s1,
     StoreChunk NoFault now s chunkID fileID chunkIndex hash data = (Ok tt, s1))
  /\
  (forall f s1,
     StoreChunk f now s chunkID fileID chunkIndex hash data = (Ok tt, s1) ->
     exists s2, run s1 ops = Some s2 /\ GetChunkData s2 chunkID = Ok data).
Proof.
  intros Hplain Hops. split.
  - eexists. apply StoreChunk_no_fault, plain_id_long, Hplain.
  - intros f s1 Hput.
    destruct (run_plain ops) with (s := s1) as [s2 Hrun].
    { eapply Forall_impl; [exact Hops|]. simpl. tauto. }
    exists s2. split; [exact Hrun|].
    apply StoreChunk_holds in Hput as [Hh Hlen].
    apply holds_GetChunkData.
    apply (run_holds chunkID data Hlen ops s1 s2); [|exact Hrun|exact Hh].
    eapply Forall_impl; [exact Hops|].
    intros [? ? cid ? ? ? ?|? ? cid]; simpl; tauto.
Qed.

(** The store of chunk "abcd", a delete and two stores concerning other
    chunks (one of which fails after its file is written), then the
    read. *)
Lemma get_after_put_returns_bytes_witness :
  exists s2,
    run peer_with_hello
        [OpStore NoFault 11 "abce" "file-1" 1 "00" (bytes "other");
         OpDelete true 12 "abce";
         OpStore ExecFails 13 "ffff" "file-2" 0 "11" (bytes "lost")]
      = Some s2 /\
    GetChunkData s2 "abcd" = Ok hello.
Proof.
  apply (proj2 (get_after_put_returns_bytes 10
                  (NewChunkService "data/chunks") "abcd" "file-1" 0
                  hello_hash hello
                  [OpStore NoFault 11 "abce" "file-1" 1 "00" (bytes "other");
                   OpDelete true 12 "abce";
                   OpStore ExecFails 13 "ffff" "file-2" 0 "11" (bytes "lost")]
                  eq_refl
                  ltac:(repeat constructor; simpl; discriminate))
               NoFault peer_with_hello).
  reflexivity.
Defined.

(** [StoreChunk] returns without error whenever the identifier has at
    least four bytes and no write fails, and the bytes can then be read. *)
Lemma put_then_get now s chunkID fileID chunkIndex hash data :
  (4 <= String.length chunkID)%nat ->
  exists s1,
    StoreChunk NoFault now s chunkID fileID chunkIndex hash data = (Ok tt, s1)
    /\ GetChunkData s1 chunkID = Ok data.
Proof.
  intros Hlen. eexists. split; [now apply StoreChunk_no_fault|].
  apply holds_GetChunkData.
  eapply StoreChunk_holds. now apply StoreChunk_no_fault.
Qed.

(** The specification's first scenario on the peer: after the five bytes of
    "hello" are stored, the index shows size 5 and the digest of "hello",
    and the read returns "hello". *)
Example stored_hello :
  GetChunk peer_with_hello "abcd" =
    Ok (mkStoredChunk "abcd" "file-1" 0 hello_hash 5 "data/chunks/ab/cd/abcd"
                      "active" 10 10) /\
  GetChunkData peer_with_hello "abcd" = Ok hello /\
  GetTotalStorage peer_with_hello = 5 /\
  GetChunkCount peer_with_hello = 1.
Proof. evaluate_all. Qed.

(** *** Deleting *)

(** After a delete the chunk is no longer listed or counted ... *)
Lemma deleted_chunk_not_listed now s chunkID c :
  c ∈ ListChunks (snd (DeleteChunk true now s chunkID)) -> ID c = chunkID ->
  (forall id row, stored_chunks s !! id = Some row -> ID row = id) ->
  False.
Proof.
  unfold ListChunks, DeleteChunk. simpl. intros Hin Hid Hkeys.
  apply list_elem_of_filter in Hin as [Hactive Hin].
  apply list_elem_of_fmap in Hin as ([id row] & -> & Hin).
  apply elem_of_map_to_list in Hin. simpl in *.
  destruct (decide (chunkID = id)) as [->|Hne].
  - rewrite lookup_alter_eq in Hin.
    destruct (stored_chunks s !! id); simpl in Hin; [|discriminate].
    injection Hin as <-. discriminate.
  - rewrite lookup_alter_ne in Hin by exact Hne.
    apply Hkeys in Hin. congruence.
Qed.

(** ... but [GetChunk] and [GetChunkData] do not look at the status:
    whatever was readable before the delete is readable after it. *)
Lemma get_ignores_delete ok now s chunkID id data :
  GetChunkData s id = Ok data ->
  GetChunkData (snd (DeleteChunk ok now s chunkID)) id = Ok data.
Proof.
  unfold GetChunkData, GetChunk, DeleteChunk.
  destruct ok; simpl; [|auto].
  destruct (decide (chunkID = id)) as [->|Hne].
  - rewrite lookup_alter_eq.
    destruct (stored_chunks s !! id); simpl; auto.
  - now rewrite lookup_alter_ne.
Qed.

(** C5 (the code departs from the claim). Store "hello" as chunk "abcd",
    delete the chunk, read it: the delete succeeds, the row is marked
    deleted and is no longer counted, yet [GetChunkData] still returns the
    five bytes instead of a not-found error. *)
Example get_after_delete_still_returns_bytes :
  fst (DeleteChunk true 20 peer_with_hello "abcd") = Ok tt /\
  Status <$> (stored_chunks peer_after_delete !! "abcd") = Some "deleted" /\
  GetChunkCount peer_with_hello = 1 /\
  GetChunkCount peer_after_delete = 0 /\
  GetChunkData peer_after_delete "abcd" = Ok hello.
Proof. vm_compute. repeat split; reflexivity. Qed.

(** The same for every store, chunk and byte sequence. *)
Lemma put_delete_get f now s chunkID fileID chunkIndex hash data s1 ok now' :
  StoreChunk f now s chunkID fileID chunkIndex hash data = (Ok tt, s1) ->
  GetChunkData (snd (DeleteChunk ok now' s1 chunkID)) chunkID = Ok data.
Proof.
  intros Hput. apply get_ignores_delete, holds_GetChunkData.
  eapply StoreChunk_holds, Hput.
Qed.

(** *** Hashes in the store *)

(** C4 (counterexample). [StoreChunk] is handed the bytes of "hello"
    together with the hash "deadbeef": it returns without error, and the
    store then holds a chunk whose bytes do not hash to its recorded
    hash. *)
Lemma put_accepts_wrong_hash :
  StoreChunk NoFault 10 (NewChunkService "data/chunks")
             "abcd" "file-1" 0 "deadbeef" hello
    = (Ok tt, peer_with_wrong_hash) /\
  hex (sha256 hello) <> "deadbeef" /\
  GetChunkData peer_with_wrong_hash "abcd" = Ok hello /\
  Hash <$> (stored_chunks peer_with_wrong_hash !! "abcd") = Some "deadbeef".
Proof.
  split; [reflexivity|].
  split; [vm_compute; discriminate|].
  split; vm_compute; reflexivity.
Qed.

(** C4 (as amended). [StoreChunk] does not hash the bytes and does not
    compare hashes: for an identifier of at least four bytes and no failing
    write it returns without error whatever hash it is given, records that
    hash as given next to the length of the bytes, and stores the bytes.
    Hence the chunk satisfies "SHA-256 of the stored bytes = stored hash"
    exactly when the caller supplied the digest of the bytes. *)
Theorem put_records_supplied_hash now s chunkID fileID chunkIndex hash data :
  (4 <= String.length chunkID)%nat ->
  exists s1 c,
    StoreChunk NoFault now s chunkID fileID chunkIndex hash data = (Ok tt, s1)
    /\ GetChunk s1 chunkID = Ok c
    /\ Hash c = hash
    /\ SizeBytes c = Z.of_nat (length data)
    /\ GetChunkData s1 chunkID = Ok data
    /\ (hex (sha256 data) = Hash c <-> hash = hex (sha256 data)).
Proof.
  intros Hlen.
  pose proof (StoreChunk_no_fault now s chunkID fileID chunkIndex hash data Hlen)
    as Hput.
  destruct (upsert_chunk_lookup now chunkID fileID chunkIndex hash
              (Z.of_nat (length data))
              (chunk_file_path (chunkDir s) chunkID) (stored_chunks s))
    as (c & Hrow & _ & _ & _ & Hhash & Hsize & _).
  eexists. exists c. split; [exact Hput|].
  split; [unfold GetChunk; simpl; now rewrite Hrow|].
  split; [exact Hhash|]. split; [exact Hsize|].
  split.
  - apply holds_GetChunkData. eapply StoreChunk_holds, Hput.
  - rewrite Hhash. split; congruence.
Qed.

Lemma put_records_supplied_hash_witness :
  (4 <= String.length "abcd")%nat /\
  exists s1 c,
    StoreChunk NoFault 10 (NewChunkService "data/chunks")
               "abcd" "file-1" 0 "deadbeef" hello = (Ok tt, s1)
    /\ GetChunk s1 "abcd" = Ok c
    /\ Hash c = "deadbeef"
    /\ SizeBytes c = Z.of_nat (length hello)
    /\ GetChunkData s1 "abcd" = Ok hello
    /\ (hex (sha256 hello) = Hash c <-> "deadbeef" = hex (sha256 hello)).
Proof.
  split; [simpl; lia|].
  apply (put_records_supplied_hash 10 (NewChunkService "data/chunks")
           "abcd" "file-1" 0 "deadbeef" hello).
  simpl; lia.
Defined.

(** When every store supplies the digest of its bytes and no write stops
    half-way, the bytes of every chunk that can be read hash to the
    recorded hash. *)
Lemma step_hashes_agree s o r s' :
  honest o -> step s o = (r, s') -> hashes_agree s -> hashes_agree s'.
Proof.
  intros Hh Hstep Hinv.
  destruct o as [f now chunkID fileID chunkIndex hash data'|ok now chunkID];
    simpl in *.
  - destruct Hh as [-> Hpartial]. unfold StoreChunk in Hstep.
    destruct (String.length chunkID <? 4)%nat eqn:E.
    { now injection Hstep as _ <-. }
    apply Nat.ltb_ge in E.
    destruct f as [| |[partial|]|]; injection Hstep as _ <-;
      try exact Hinv; try (now exfalso; eapply Hpartial).
    + (* the store succeeds *)
      intros id c Hrow. simpl in *.
      destruct (decide (id = chunkID)) as [->|Hne].
      * destruct (upsert_chunk_lookup now chunkID fileID chunkIndex
                    (hex (sha256 data')) (Z.of_nat (length data'))
                    (chunk_file_path (chunkDir s) chunkID) (stored_chunks s))
          as (c' & Hrow' & _ & _ & _ & Hhash & _ & Hpath).
        rewrite Hrow in Hrow'. injection Hrow' as <-.
        split; [exact Hpath|]. split; [exact E|].
        intros data. rewrite Hpath, lookup_insert_eq. congruence.
      * rewrite upsert_chunk_other in Hrow by exact Hne.
        destruct (Hinv id c Hrow) as (Hpath & Hlen & Hdata).
        split; [exact Hpath|]. split; [exact Hlen|].
        intros data. rewrite lookup_insert_ne; [apply Hdata|].
        rewrite Hpath. intros Heq. apply Hne. symmetry.
        now apply (chunk_file_path_inj (chunkDir s)).
    + (* the insert fails and the file is removed again *)
      intros id c Hrow. simpl in *.
      destruct (Hinv id c Hrow) as (Hpath & Hlen & Hdata).
      split; [exact Hpath|]. split; [exact Hlen|].
      intros data.
      destruct (decide (chunk_file_path (chunkDir s) chunkID = FilePath c))
        as [Heq|Hne].
      * rewrite Heq, lookup_delete_eq. discriminate.
      * rewrite lookup_delete_ne, lookup_insert_ne by exact Hne. apply Hdata.
  - unfold DeleteChunk in Hstep.
    destruct ok; injection Hstep as _ <-; [|exact Hinv].
    intros id c Hrow. simpl in *.
    destruct (decide (chunkID = id)) as [->|Hne].
    + rewrite lookup_alter_eq in Hrow.
      destruct (stored_chunks s !! id) as [c0|] eqn:Hc0; [|discriminate].
      injection Hrow as <-. simpl. exact (Hinv id c0 Hc0).
    + rewrite lookup_alter_ne in Hrow by exact Hne. exact (Hinv id c Hrow).
Qed.

Lemma honest_stores_keep_hashes ops :
  forall s s',
    Forall honest ops -> run s ops = Some s' ->
    hashes_agree s -> hashes_agree s'.
Proof.
  induction ops as [|o ops IH]; intros s s' Hall Hrun Hinv; simpl in Hrun.
  - now injection Hrun as <-.
  - inversion Hall as [|? ? Ho Hrest]; subst.
    destruct (step s o) as [r s1] eqn:Hstep.
    assert (Hs1 : hashes_agree s1) by (eapply step_hashes_agree; eauto).
    destruct r; try discriminate; eapply IH; eauto.
Qed.

Lemma new_store_hashes_agree dir : hashes_agree (NewChunkService dir).
Proof. intros id c Hrow. simpl in Hrow. now rewrite lookup_empty in Hrow. Qed.

(** *** The proof engine *)

(** C1 (counterexample). The peer holds the bytes of "hello" as chunk
    "abcd". For the seed of 32 zero bytes and difficulty 1 the engine
    answers with the hash of seed ∥ (the 64 characters of the recorded
    hash), which is not the hash of seed ∥ ciphertext the specification
    asks for. *)
Lemma proof_engine_skips_ciphertext :
  GetChunkData peer_with_hello "abcd" = Ok hello /\
  GenerateProof 3 peer_with_hello "abcd" zero_seed 1 =
    Ok (mkProofResult
          "2e919fd10ec3fd73822a348e85993742c05d1ebe341b4a00b101ef084ced5781" 3) /\
  canonical_proof zero_seed hello 1 =
    "a41de667c15557cbd8acdd71ef0fef5dc73561374baed8330f8adb0e1424cd62" /\
  GenerateProof 3 peer_with_hello "abcd" zero_seed 1 <>
    Ok (mkProofResult (canonical_proof zero_seed hello 1) 3).
Proof.
  split; [vm_compute; reflexivity|].
  split; [vm_compute; reflexivity|].
  split; [vm_compute; reflexivity|].
  vm_compute. discriminate.
Qed.

(** C1 (as amended). For every chunk that has a row in the peer's index,
    every seed and every difficulty, [GenerateProof] returns the lowercase
    hexadecimal form of SHA-256 applied [difficulty] times (not at all for
    a difficulty below one) to seed ∥ (the bytes of the hash string
    recorded for the chunk); the files on disk, hence the ciphertext, play
    no part in the answer. *)
Theorem GenerateProof_hashes_recorded_hash
    elapsed s chunkID seed difficulty c :
  stored_chunks s !! chunkID = Some c ->
  GenerateProof elapsed s chunkID seed difficulty =
    Ok (mkProofResult
          (hex (Nat.iter (Z.to_nat difficulty) sha256 (seed ++ bytes (Hash c))))
          elapsed)
  /\ forall disk',
       GenerateProof elapsed (with_disk s disk') chunkID seed difficulty =
       GenerateProof elapsed s chunkID seed difficulty.
Proof.
  intros Hrow. unfold GenerateProof, GetChunk. simpl. rewrite Hrow.
  now rewrite hash_loop_iter.
Qed.

Lemma GenerateProof_hashes_recorded_hash_witness :
  stored_chunks peer_with_hello !! "abcd" =
    Some (mkStoredChunk "abcd" "file-1" 0 hello_hash 5
                        "data/chunks/ab/cd/abcd" "active" 10 10) /\
  GenerateProof 3 peer_with_hello "abcd" zero_seed 2 =
    Ok (mkProofResult
          (hex (Nat.iter (Z.to_nat 2) sha256 (zero_seed ++ bytes hello_hash)))
          3).
Proof.
  assert (Hrow : stored_chunks peer_with_hello !! "abcd" =
                 Some (mkStoredChunk "abcd" "file-1" 0 hello_hash 5
                         "data/chunks/ab/cd/abcd" "active" 10 10))
    by (vm_compute; reflexivity).
  split; [exact Hrow|].
  exact (proj1 (GenerateProof_hashes_recorded_hash
                  3 peer_with_hello "abcd" zero_seed 2 _ Hrow)).
Defined.

(** A chunk without a row yields an error, never a made-up answer. *)
Lemma GenerateProof_unknown_chunk elapsed s chunkID seed difficulty :
  stored_chunks s !! chunkID = None ->
  GenerateProof elapsed s chunkID seed difficulty = Err "chunk not found".
Proof. intros Hrow. unfold GenerateProof, GetChunk. now rewrite Hrow. Qed.

(** Difficulty 0: no hashing at all, the answer is the hexadecimal form of
    seed ∥ recorded hash. *)
Example GenerateProof_difficulty_zero :
  GenerateProof 0 peer_with_hello "abcd" (bytes "s") 0 =
    Ok (mkProofResult (hex (bytes "s" ++ bytes hello_hash)) 0).
Proof. vm_compute. reflexivity. Qed.

End StorageNodeFacts.

(* ===================================================================== *)
(** ** Properties of the coordinator                                      *)
(* ===================================================================== *)

Module CoordinatorFacts.
Import Crypto Coordinator Scenario.

Example UUID_String_example :
  UUID_String 5 = "00000000-0000-0000-0000-000000000005".
Proof. vm_compute. reflexivity. Qed.

(** *** Lists of rows *)

Lemma find_map_same_key {A : Type} (p : A -> bool) (g : A -> A) (l : list A) :
  (forall x, p (g x) = p x) ->
  find p (map g l) = option_map g (find p l).
Proof.
  intros Hp. induction l as [|x l IH]; simpl; [reflexivity|].
  rewrite Hp. destruct (p x); [reflexivity | exact IH].
Qed.

Lemma find_holds {A : Type} (p : A -> bool) (l : list A) (x : A) :
  find p l = Some x -> p x = true.
Proof. intros H. now apply find_some in H. Qed.

(** *** Placement *)

Lemma GetAllNodes_length db :
  length (GetAllNodes db) =
  length (List.filter has_active_status (storage_nodes db)).
Proof. unfold GetAllNodes. apply length_map. Qed.

Lemma GetAllNodes_active db :
  Forall (fun n => Status n = "active") (GetAllNodes db).
Proof.
  unfold GetAllNodes. apply Forall_forall. intros n Hin.
  apply list_elem_of_In, in_map_iff in Hin as (m & <- & Hin).
  apply filter_In in Hin as [_ Hact]. simpl.
  now apply String.eqb_eq in Hact.
Qed.

(** C6 (counterexample). The registry holds one node with status active
    that never sent a heartbeat and whose capacity is used up, and one dead
    node. For a chunk of five bytes and one replica the planner returns
    the first node, which is not eligible; no peer can accept the chunk,
    yet the planner does not fail. *)
Lemma planner_returns_ineligible_peer :
  SelectNodesForChunks registry 1 = Ok [scan_listed full_silent_node] /\
  spec_eligible 100 90 5 5 registry (scan_listed full_silent_node) = false /\
  List.filter (spec_eligible 100 90 5 5 registry) (storage_nodes registry) = [].
Proof. vm_compute. repeat split; reflexivity. Qed.

(** C6 (as amended). For every replica count [R >= 0] the planner returns
    exactly [R] peers, the first [R] rows with status active in table
    order, every one of them with status active (heartbeat age, free
    capacity and existing assignments are not looked at); it fails exactly
    when fewer than [R] rows have status active. *)
Theorem planner_takes_first_active db replicaCount :
  0 <= replicaCount ->
  let available :=
    Z.of_nat (length (List.filter has_active_status (storage_nodes db))) in
  (available < replicaCount ->
   SelectNodesForChunks db replicaCount = Err "not enough active nodes") /\
  (replicaCount <= available ->
   exists nodes,
     SelectNodesForChunks db replicaCount = Ok nodes /\
     nodes = take (Z.to_nat replicaCount) (GetAllNodes db) /\
     Z.of_nat (length nodes) = replicaCount /\
     Forall (fun n => Status n = "active") nodes).
Proof.
  intros Hnonneg available. subst available.
  rewrite <- GetAllNodes_length. unfold SelectNodesForChunks.
  split; intros Hcmp.
  - apply Z.ltb_lt in Hcmp. now rewrite Hcmp.
  - destruct (Z.ltb_spec (Z.of_nat (length (GetAllNodes db))) replicaCount);
      [lia|].
    destruct (Z.ltb_spec replicaCount 0); [lia|].
    eexists. split; [reflexivity|]. split; [reflexivity|]. split.
    + rewrite length_take. lia.
    + apply Forall_take, GetAllNodes_active.
Qed.

Lemma planner_takes_first_active_witness :
  0 <= 1 /\
  SelectNodesForChunks registry 2 = Err "not enough active nodes" /\
  exists nodes,
    SelectNodesForChunks registry 1 = Ok nodes /\
    nodes = take (Z.to_nat 1) (GetAllNodes registry) /\
    Z.of_nat (length nodes) = 1 /\
    Forall (fun n => Status n = "active") nodes.
Proof.
  split; [lia|]. split.
  - apply (proj1 (planner_takes_first_active registry 2 ltac:(lia))).
    vm_compute. reflexivity.
  - apply (proj2 (planner_takes_first_active registry 1 ltac:(lia))).
    vm_compute. discriminate.
Defined.

(** A negative replica count is not rejected; the slice expression
    panics. *)
Lemma planner_negative_count db replicaCount :
  replicaCount < 0 -> SelectNodesForChunks db replicaCount = Panic.
Proof.
  intros Hneg. unfold SelectNodesForChunks.
  destruct (Z.ltb_spec (Z.of_nat (length (GetAllNodes db))) replicaCount);
    [lia|].
  destruct (Z.ltb_spec replicaCount 0); [reflexivity | lia].
Qed.

(** *** Heartbeats *)

Lemma UpdateHeartbeat_keeps_peer_ids now usedBytes nodeID n :
  PeerID (if N.eqb (ID n) nodeID then beat now usedBytes n else n) = PeerID n.
Proof. now destruct (N.eqb (ID n) nodeID). Qed.

(** C10 (counterexample). Node "peer-b" has status dead and an uptime
    figure of 90.00. Its heartbeat, handed to the handler, is processed
    successfully (HTTP 200) and stamps the time and the used bytes, but the
    status stays dead and the uptime figure stays as it was; and on the
    route as wired, the authentication in front of the handler turns the
    dead node away (HTTP 401) and nothing is written. *)
Lemma heartbeat_leaves_dead_node_dead :
  StatusCode (fst (Heartbeat true 300 registry heartbeat_of_dead_node)) = 200 /\
  GetNodeByPeerID (snd (Heartbeat true 300 registry heartbeat_of_dead_node))
                  "peer-b" =
    Ok (mkStorageNode 2 "node-b" "peer-b" [] "/ip4/10.0.0.2/tcp/4001"
          "fsn_key_b" "dead" 1073741824 4096 0 9000 (Some 300) 50 300) /\
  Status dead_node = "dead" /\ UptimePercentage dead_node = 9000 /\
  heartbeat_route true 300 registry heartbeat_of_dead_node =
    (mkResponse 401 None, registry).
Proof. vm_compute. repeat split; reflexivity. Qed.

(** C10 (as amended). For every registered peer, a heartbeat that the
    handler processes successfully (HTTP 200) sets the peer's
    [last_heartbeat] and [updated_at] to the current time and its
    [used_storage_bytes] to the reported value. Status and uptime figure of
    every node, this one included, are left as they were. *)
Theorem heartbeat_stamps_time_and_usage exec_ok now db req resp db' :
  Heartbeat exec_ok now db req = (resp, db') ->
  StatusCode resp = 200 ->
  exists node r,
    body req = Some r /\
    GetNodeByPeerID db (X_Peer_ID req) = Ok node /\
    GetNodeByPeerID db' (X_Peer_ID req) =
      Ok (beat now (UsedStorageBytes_req r) node) /\
    LastHeartbeat (beat now (UsedStorageBytes_req r) node) = Some now /\
    UsedStorageBytes (beat now (UsedStorageBytes_req r) node)
      = UsedStorageBytes_req r /\
    map Status (storage_nodes db') = map Status (storage_nodes db) /\
    map UptimePercentage (storage_nodes db')
      = map UptimePercentage (storage_nodes db).
Proof.
  unfold Heartbeat.
  destruct (String.eqb (X_Peer_ID req) ""); [intros [= <- _]; discriminate|].
  destruct (body req) as [r|]; [|intros [= <- _]; discriminate].
  destruct (GetNodeByPeerID db (X_Peer_ID req)) as [node| |] eqn:Hnode;
    try (intros [= <- _]; discriminate).
  unfold UpdateHeartbeat.
  destruct exec_ok; [|intros [= <- _]; discriminate].
  intros [= <- <-] _. exists node, r.
  split; [reflexivity|]. split; [reflexivity|].
  unfold GetNodeByPeerID in *. simpl.
  destruct (find _ (storage_nodes db)) as [n|] eqn:Hfind; [|discriminate].
  injection Hnode as ->.
  split.
  - rewrite find_map_same_key, Hfind; simpl.
    + now rewrite N.eqb_refl.
    + intros x. now rewrite UpdateHeartbeat_keeps_peer_ids.
  - split; [reflexivity|]. split; [reflexivity|].
    rewrite !map_map.
    split; apply map_ext; intros x; now destruct (N.eqb (ID x) (ID node)).
Qed.

Lemma heartbeat_stamps_time_and_usage_witness :
  exists node r,
    body heartbeat_of_dead_node = Some r /\
    GetNodeByPeerID registry (X_Peer_ID heartbeat_of_dead_node) = Ok node /\
    GetNodeByPeerID
      (snd (Heartbeat true 300 registry heartbeat_of_dead_node))
      (X_Peer_ID heartbeat_of_dead_node) =
      Ok (beat 300 (UsedStorageBytes_req r) node) /\
    LastHeartbeat (beat 300 (UsedStorageBytes_req r) node) = Some 300 /\
    UsedStorageBytes (beat 300 (UsedStorageBytes_req r) node)
      = UsedStorageBytes_req r /\
    map Status
        (storage_nodes (snd (Heartbeat true 300 registry heartbeat_of_dead_node)))
      = map Status (storage_nodes registry) /\
    map UptimePercentage
        (storage_nodes (snd (Heartbeat true 300 registry heartbeat_of_dead_node)))
      = map UptimePercentage (storage_nodes registry).
Proof.
  apply (heartbeat_stamps_time_and_usage true 300 registry
           heartbeat_of_dead_node
           (fst (Heartbeat true 300 registry heartbeat_of_dead_node))).
  - vm_compute. reflexivity.
  - vm_compute. reflexivity.
Defined.

(** The handler does answer 200 for a registered peer whose request binds,
    when the store accepts the write. *)
Lemma heartbeat_succeeds now db req r node :
  X_Peer_ID req <> "" -> body req = Some r ->
  GetNodeByPeerID db (X_Peer_ID req) = Ok node ->
  fst (Heartbeat true now db req) = mkResponse 200 (Some (EarnedCredits node)).
Proof.
  intros Hpeer Hbody Hnode. unfold Heartbeat.
  destruct (String.eqb_spec (X_Peer_ID req) ""); [contradiction|].
  now rewrite Hbody, Hnode.
Qed.

(** On the route, a peer without a row of status active is turned away
    before the handler runs. *)
Lemma heartbeat_route_needs_active_status exec_ok now db req :
  (forall n, n ∈ storage_nodes db -> PeerID n = X_Peer_ID req ->
             Status n <> "active") ->
  heartbeat_route exec_ok now db req = (mkResponse 401 None, db).
Proof.
  intros Hinactive. unfold heartbeat_route, NodeAuthMiddleware.
  destruct (_ || _); [reflexivity|].
  unfold GetAPIKeyHash.
  destruct (find _ (storage_nodes db)) as [n|] eqn:Hfind; [|reflexivity].
  apply find_some in Hfind as [Hin Hp].
  apply andb_true_iff in Hp as [Hpeer Hact].
  apply String.eqb_eq in Hpeer, Hact.
  exfalso. eapply Hinactive; eauto. now apply list_elem_of_In.
Qed.

(** *** Assignments *)

Lemma insert_assignments_appends exec_ok now fresh chunkID nodeIDs :
  forall k t ok t',
    insert_assignments exec_ok now fresh k chunkID nodeIDs t = (ok, t') ->
    exists added,
      t' = t ++ added /\
      Forall (fun a => asg_ChunkID a = chunkID /\ asg_NodeID a ∈ nodeIDs /\
                       asg_Status a = "active" /\ asg_CreatedAt a = now) added /\
      (ok = true -> map asg_NodeID added = nodeIDs).
Proof.
  induction nodeIDs as [|n rest IH]; intros k t ok t' H; simpl in H.
  - injection H as <- <-. exists []. rewrite app_nil_r.
    split; [reflexivity|]. split; [constructor | reflexivity].
  - destruct (exec_ok k).
    + apply IH in H as (added & -> & Hall & Hok).
      exists (mkChunkAssignment (fresh k) chunkID n "active" now :: added).
      split; [now rewrite <- app_assoc|]. split.
      * constructor; [simpl; repeat split; apply list_elem_of_here|].
        eapply Forall_impl; [exact Hall|]. simpl.
        intros a (? & ? & ? & ?). repeat split; auto.
        now apply list_elem_of_further.
      * intros Htrue. simpl. now rewrite Hok.
    + injection H as <- <-. exists []. rewrite app_nil_r.
      split; [reflexivity|]. split; [constructor | discriminate].
Qed.

(** C3 (counterexample). The coordinator stores a chunk for node 1: the
    assignment it writes is active at once, not pending; the node was not
    contacted, and its used bytes are what they were. *)
Lemma assignment_born_active :
  chunk_assignments after_upload = [mkChunkAssignment 6 5 1 "active" 100] /\
  asg_Status (mkChunkAssignment 6 5 1 "active" 100) <> "pending" /\
  storage_nodes after_upload = storage_nodes registry.
Proof.
  split; [vm_compute; reflexivity|].
  split; [simpl; discriminate | reflexivity].
Qed.

(** C3 (as amended). When the coordinator stores a chunk, each per-node
    assignment is written directly in state active (the column default),
    one per listed node and in their order, as soon as the chunk row is
    in; there is no transfer, no acknowledgement and no pending or failed
    state, earlier assignments are kept, and no node's used bytes change.
    This holds for the rows written before a failing insert as well. *)
Theorem assignments_written_active
    exec_ok now fresh db fileID chunkIndex data nodeIDs r db' :
  StoreChunk exec_ok now fresh db fileID chunkIndex data nodeIDs = (r, db') ->
  storage_nodes db' = storage_nodes db /\
  exists added,
    chunk_assignments db' = chunk_assignments db ++ added /\
    Forall (fun a => asg_ChunkID a = fresh O /\ asg_NodeID a ∈ nodeIDs /\
                     asg_Status a = "active") added /\
    (is_ok r = true -> map asg_NodeID added = nodeIDs).
Proof.
  unfold StoreChunk. destruct (exec_ok O).
  - destruct (insert_assignments _ _ _ _ _ _ _) as [ok t] eqn:Hins.
    apply insert_assignments_appends in Hins as (added & -> & Hall & Hok).
    simpl in *.
    assert (Hall' : Forall (fun a => asg_ChunkID a = fresh O /\
                                     asg_NodeID a ∈ nodeIDs /\
                                     asg_Status a = "active") added).
    { eapply Forall_impl; [exact Hall|]. simpl. tauto. }
    destruct ok; intros [= <- <-]; simpl; (split; [reflexivity|]);
      exists added; repeat split; auto; discriminate.
  - intros [= <- <-]. split; [reflexivity|]. exists [].
    rewrite app_nil_r. repeat split; [constructor | discriminate].
Qed.

Lemma assignments_written_active_witness :
  storage_nodes after_upload = storage_nodes registry /\
  exists added,
    chunk_assignments after_upload = chunk_assignments registry ++ added /\
    Forall (fun a => asg_ChunkID a = fresh_ids O /\ asg_NodeID a ∈ [1%N] /\
                     asg_Status a = "active") added /\
    (is_ok (fst (StoreChunk all_writes_succeed 100 fresh_ids registry
                            9 0 hello [1%N])) = true ->
     map asg_NodeID added = [1%N]).
Proof.
  apply (assignments_written_active all_writes_succeed 100 fresh_ids registry
           9 0 hello [1%N]).
  reflexivity.
Defined.

(** *** Proof verification *)

Lemma find_challenge_update f challengeID db :
  (forall c, pc_ID (f c) = pc_ID c) ->
  find_challenge (update_challenge f challengeID db) challengeID =
  option_map f (find_challenge db challengeID).
Proof.
  intros Hid. unfold find_challenge, update_challenge. simpl.
  rewrite find_map_same_key.
  - destruct (find _ (proof_challenges db)) as [c|] eqn:Hfind; [|reflexivity].
    apply find_holds in Hfind. simpl. now rewrite Hfind.
  - intros c. simpl.
    destruct (N.eqb (pc_ID c) challengeID) eqn:E; [now rewrite Hid | exact E].
Qed.

Lemma VerifyProof_cases now db challengeID proofHash durationMs c :
  find_challenge db challengeID = Some c ->
  VerifyProof true now db challengeID proofHash durationMs =
    if 2000 <? durationMs then
      (Err "proof verification timed out",
       update_challenge (set_timed_out durationMs now) challengeID db)
    else if String.eqb proofHash (expected_hash c) then
      (Ok tt,
       update_challenge (set_decided "verified" proofHash durationMs now)
                        challengeID db)
    else
      (Err "invalid proof hash",
       update_challenge (set_decided "failed" proofHash durationMs now)
                        challengeID db).
Proof.
  intros Hfind. unfold VerifyProof. rewrite Hfind.
  destruct (2000 <? durationMs); [reflexivity|].
  unfold generateExpectedProof, expected_hash.
  now destruct (String.eqb proofHash _).
Qed.

(** The row of the challenge after one call whose write is accepted. *)
Lemma VerifyProof_row now db challengeID proofHash durationMs c :
  find_challenge db challengeID = Some c ->
  exists c',
    find_challenge
      (snd (VerifyProof true now db challengeID proofHash durationMs))
      challengeID = Some c' /\
    expected_hash c' = expected_hash c /\
    pc_DurationMs c' = Some durationMs /\
    pc_VerifiedAt c' = Some now /\
    (pc_Status c' = "verified" <->
     proofHash = expected_hash c /\ durationMs <= 2000) /\
    (pc_Status c' = "failed" <->
     ~ (proofHash = expected_hash c /\ durationMs <= 2000)) /\
    (durationMs <= 2000 -> pc_ProofHash c' = Some proofHash) /\
    (2000 < durationMs -> pc_ProofHash c' = pc_ProofHash c).
Proof.
  intros Hfind. rewrite (VerifyProof_cases _ _ _ _ _ c Hfind).
  destruct (Z.ltb_spec 2000 durationMs) as [Hlate|Hintime].
  - exists (set_timed_out durationMs now c). simpl.
    rewrite find_challenge_update, Hfind by reflexivity.
    repeat split; simpl; try tauto; try lia; try discriminate.
  - destruct (String.eqb_spec proofHash (expected_hash c)) as [Heq|Hne].
    + exists (set_decided "verified" proofHash durationMs now c). simpl.
      rewrite find_challenge_update, Hfind by reflexivity.
      repeat split; simpl; try tauto; try lia; try discriminate.
    + exists (set_decided "failed" proofHash durationMs now c). simpl.
      rewrite find_challenge_update, Hfind by reflexivity.
      repeat split; simpl; try tauto; try lia; try discriminate.
Qed.

Lemma VerifyProof_other_tables exec_ok now db challengeID proofHash durationMs :
  let db' := snd (VerifyProof exec_ok now db challengeID proofHash durationMs) in
  chunks db' = chunks db /\ storage_nodes db' = storage_nodes db /\
  chunk_assignments db' = chunk_assignments db.
Proof.
  unfold VerifyProof.
  destruct (find_challenge db challengeID); [|now simpl].
  destruct (2000 <? durationMs); [now destruct exec_ok|].
  destruct (negb _); now destruct exec_ok.
Qed.

Example generateExpectedProof_example :
  generateExpectedProof zero_seed (UUID_String 5) = expected_for_challenge.
Proof. vm_compute. reflexivity. Qed.

(** C7 (counterexample). The response to challenge 40 carries the expected
    hash and took 150 ms: the challenge becomes verified, and the chunks
    table, the row of chunk 5 included, is exactly what it was; nothing of
    the chunk is updated. A response that took 3000 ms makes the challenge
    failed, and the row written has no column saying why. *)
Lemma verified_proof_leaves_chunk_alone :
  fst (VerifyProof true 300 challenged 40 expected_for_challenge 150) = Ok tt /\
  find_challenge
    (snd (VerifyProof true 300 challenged 40 expected_for_challenge 150)) 40 =
    Some (mkProofChallenge 40 5 1 zero_seed 2 "verified"
            (Some expected_for_challenge) (Some 150) (Some 300) 200) /\
  chunks (snd (VerifyProof true 300 challenged 40 expected_for_challenge 150)) =
    chunks challenged /\
  chunks challenged =
    [mkChunkRow (mkChunk 5 9 0 hello_hash 5) hello] /\
  find_challenge
    (snd (VerifyProof true 300 challenged 40 expected_for_challenge 3000)) 40 =
    Some (mkProofChallenge 40 5 1 zero_seed 2 "failed"
            None (Some 3000) (Some 300) 200).
Proof. vm_compute. repeat split; reflexivity. Qed.

(** C7 (as amended). For every response processed for an existing
    challenge, the store accepting the write: the status written is
    verified exactly when the response hash equals the expected hash and
    the elapsed time is at most 2000 ms, and failed otherwise. The cause
    of a failure is told by the returned error only (timed out when more
    than 2000 ms elapsed, invalid proof hash when the hashes differ within
    the time); no reason is stored. Every outcome stamps the challenge's
    own [verified_at] and duration, and no chunk row is touched. *)
Theorem VerifyProof_written_outcome
    now db challengeID proofHash durationMs c :
  find_challenge db challengeID = Some c ->
  exists c',
    find_challenge
      (snd (VerifyProof true now db challengeID proofHash durationMs))
      challengeID = Some c' /\
    (pc_Status c' = "verified" <->
     proofHash = expected_hash c /\ durationMs <= 2000) /\
    (pc_Status c' = "failed" <->
     ~ (proofHash = expected_hash c /\ durationMs <= 2000)) /\
    (2000 < durationMs ->
     fst (VerifyProof true now db challengeID proofHash durationMs)
       = Err "proof verification timed out") /\
    (durationMs <= 2000 -> proofHash <> expected_hash c ->
     fst (VerifyProof true now db challengeID proofHash durationMs)
       = Err "invalid proof hash") /\
    (durationMs <= 2000 -> proofHash = expected_hash c ->
     fst (VerifyProof true now db challengeID proofHash durationMs) = Ok tt) /\
    pc_VerifiedAt c' = Some now /\ pc_DurationMs c' = Some durationMs /\
    chunks (snd (VerifyProof true now db challengeID proofHash durationMs))
      = chunks db.
Proof.
  intros Hfind.
  destruct (VerifyProof_row now db challengeID proofHash durationMs c Hfind)
    as (c' & Hrow & _ & Hdur & Hat & Hver & Hfail & _ & _).
  exists c'. split; [exact Hrow|]. split; [exact Hver|]. split; [exact Hfail|].
  rewrite (VerifyProof_cases _ _ _ _ _ c Hfind).
  split; [|split; [|split; [|split; [exact Hat|split; [exact Hdur|]]]]].
  - intros Hlate. apply Z.ltb_lt in Hlate. now rewrite Hlate.
  - intros Hin Hne. destruct (Z.ltb_spec 2000 durationMs); [lia|].
    now destruct (String.eqb_spec proofHash (expected_hash c)).
  - intros Hin Heq. destruct (Z.ltb_spec 2000 durationMs); [lia|].
    now destruct (String.eqb_spec proofHash (expected_hash c)).
  - destruct (2000 <? durationMs); [reflexivity|].
    now destruct (String.eqb proofHash (expected_hash c)).
Qed.

Lemma VerifyProof_written_outcome_witness :
  find_challenge challenged 40 =
    Some (mkProofChallenge 40 5 1 zero_seed 2 "pending" None None None 200) /\
  exists c',
    find_challenge
      (snd (VerifyProof true 300 challenged 40 "00" 150)) 40 = Some c' /\
    pc_Status c' = "failed".
Proof.
  assert (Hfind : find_challenge challenged 40 =
            Some (mkProofChallenge 40 5 1 zero_seed 2 "pending"
                                   None None None 200))
    by (vm_compute; reflexivity).
  split; [exact Hfind|].
  destruct (VerifyProof_written_outcome 300 challenged 40 "00" 150 _ Hfind)
    as (c' & Hrow & _ & Hfail & _).
  exists c'. split; [exact Hrow|].
  apply Hfail. intros [Heq _]. vm_compute in Heq. discriminate.
Defined.

(** A challenge is created pending: the struct returned and the row
    written both say so, and the row is the only one written. *)
Lemma CreateChallenge_pending now id seed difficulty db chunkID nodeID c db' :
  CreateChallenge true now id seed difficulty db chunkID nodeID = (Ok c, db') ->
  pc_Status c = "pending" /\ pc_ProofHash c = None /\ pc_DurationMs c = None /\
  exists row,
    proof_challenges db' = proof_challenges db ++ [row] /\
    pc_ID row = pc_ID c /\ pc_Status row = "pending" /\
    pc_ProofHash row = None /\ pc_DurationMs row = None /\
    pc_VerifiedAt row = None /\ pc_CreatedAt row = now.
Proof.
  unfold CreateChallenge. intros [= <- <-]. simpl.
  repeat split. eexists. split; [reflexivity|]. repeat split.
Qed.

(** C8 (counterexample). Challenge 40 is pending. A first response takes
    3000 ms and the challenge is written as failed; a second response with
    the expected hash and 150 ms is then accepted: status, proof hash and
    duration of the decided challenge all change. *)
Lemma decided_challenge_is_rewritten :
  let db1 := snd (VerifyProof true 300 challenged 40 "00" 3000) in
  let db2 := snd (VerifyProof true 400 db1 40 expected_for_challenge 150) in
  find_challenge challenged 40 =
    Some (mkProofChallenge 40 5 1 zero_seed 2 "pending" None None None 200) /\
  find_challenge db1 40 =
    Some (mkProofChallenge 40 5 1 zero_seed 2 "failed"
            None (Some 3000) (Some 300) 200) /\
  find_challenge db2 40 =
    Some (mkProofChallenge 40 5 1 zero_seed 2 "verified"
            (Some expected_for_challenge) (Some 150) (Some 400) 200).
Proof. vm_compute. repeat split; reflexivity. Qed.

(** C8 (as amended). Every verification call on an existing challenge,
    the store accepting the write, leaves the challenge in exactly one of
    verified or failed, never pending. The decided state is not terminal:
    a later call decides afresh, from its own response hash and duration
    alone, and overwrites status and duration (and the proof hash unless it
    times out), whatever the earlier call had written. *)
Theorem later_verification_decides_afresh
    now1 now2 db challengeID c hash1 duration1 hash2 duration2 :
  find_challenge db challengeID = Some c ->
  let db1 := snd (VerifyProof true now1 db challengeID hash1 duration1) in
  let db2 := snd (VerifyProof true now2 db1 challengeID hash2 duration2) in
  exists c1 c2,
    find_challenge db1 challengeID = Some c1 /\
    find_challenge db2 challengeID = Some c2 /\
    (pc_Status c1 = "verified" \/ pc_Status c1 = "failed") /\
    (pc_Status c2 = "verified" \/ pc_Status c2 = "failed") /\
    (pc_Status c2 = "verified" <->
     hash2 = expected_hash c /\ duration2 <= 2000) /\
    pc_DurationMs c2 = Some duration2 /\
    (duration2 <= 2000 -> pc_ProofHash c2 = Some hash2).
Proof.
  intros Hfind db1 db2. subst db1 db2.
  destruct (VerifyProof_row now1 db challengeID hash1 duration1 c Hfind)
    as (c1 & Hrow1 & Hexp1 & _ & _ & Hver1 & Hfail1 & _ & _).
  destruct (VerifyProof_row now2 _ challengeID hash2 duration2 c1 Hrow1)
    as (c2 & Hrow2 & _ & Hdur2 & _ & Hver2 & Hfail2 & Hhash2 & _).
  rewrite Hexp1 in Hver2, Hfail2.
  exists c1, c2. split; [exact Hrow1|]. split; [exact Hrow2|].
  split; [|split; [|split; [exact Hver2|split; [exact Hdur2|exact Hhash2]]]].
  - destruct (String.eqb_spec hash1 (expected_hash c));
      destruct (Z.le_gt_cases duration1 2000);
      (left; apply Hver1; split; [assumption | lia])
      || (right; apply Hfail1; intros [? ?]; (contradiction || lia)).
  - destruct (String.eqb_spec hash2 (expected_hash c));
      destruct (Z.le_gt_cases duration2 2000);
      (left; apply Hver2; split; [assumption | lia])
      || (right; apply Hfail2; intros [? ?]; (contradiction || lia)).
Qed.

Lemma later_verification_decides_afresh_witness :
  find_challenge challenged 40 =
    Some (mkProofChallenge 40 5 1 zero_seed 2 "pending" None None None 200) /\
  exists c1 c2,
    find_challenge (snd (VerifyProof true 300 challenged 40 "00" 3000)) 40
      = Some c1 /\
    find_challenge
      (snd (VerifyProof true 400
              (snd (VerifyProof true 300 challenged 40 "00" 3000))
              40 expected_for_challenge 150)) 40 = Some c2 /\
    (pc_Status c1 = "verified" \/ pc_Status c1 = "failed") /\
    (pc_Status c2 = "verified" \/ pc_Status c2 = "failed") /\
    pc_DurationMs c2 = Some 150.
Proof.
  assert (Hfind : find_challenge challenged 40 =
            Some (mkProofChallenge 40 5 1 zero_seed 2 "pending"
                                   None None None 200))
    by (vm_compute; reflexivity).
  split; [exact Hfind|].
  destruct (later_verification_decides_afresh 300 400 challenged 40 _
              "00" 3000 expected_for_challenge 150 Hfind)
    as (c1 & c2 & H1 & H2 & Hs1 & Hs2 & _ & Hdur & _).
  exists c1, c2. auto.
Defined.

(** C2 (counterexample). The coordinator holds the bytes of chunk 5
    ("hello"); challenge 40 on it has the seed of 32 zero bytes and
    difficulty 2. The canonical answer computed from those bytes is
    rejected as an invalid proof hash; what is accepted is the single hash
    of seed ∥ chunk identifier. The peer's proof engine, asked the same
    challenge about the same chunk, produces a third value, which the
    coordinator rejects as well. *)
Lemma expected_proof_is_not_canonical :
  map row_data (chunks challenged) = [hello] /\
  find_challenge challenged 40 =
    Some (mkProofChallenge 40 5 1 zero_seed 2 "pending" None None None 200) /\
  StorageNode.canonical_proof zero_seed hello 2 =
    "329aaef3ebeed2b95f142db8975038a3c08ec74087766761c32df04dc64ba031" /\
  fst (VerifyProof true 300 challenged 40
         (StorageNode.canonical_proof zero_seed hello 2) 150)
    = Err "invalid proof hash" /\
  fst (VerifyProof true 300 challenged 40 expected_for_challenge 150) = Ok tt /\
  expected_for_challenge <> StorageNode.canonical_proof zero_seed hello 2 /\
  StorageNode.GetChunkData honest_peer (UUID_String 5) = Ok hello /\
  StorageNode.GenerateProof 12 honest_peer (UUID_String 5) zero_seed 2 =
    Ok (StorageNode.mkProofResult
          "c434edc60ff9f88b9125b11ac4d0896eec44ce21055fe00835a9f5b82dcc2ee6" 12) /\
  fst (VerifyProof true 300 challenged 40
         "c434edc60ff9f88b9125b11ac4d0896eec44ce21055fe00835a9f5b82dcc2ee6" 12)
    = Err "invalid proof hash".
Proof. evaluate_all. Qed.

(** C2 (as amended). For every proof challenge, the value [VerifyProof]
    compares the peer's response with is the lowercase hexadecimal SHA-256
    of seed ∥ (the text of the chunk's identifier), hashed once: a response
    within the time limit is accepted exactly when it equals that value.
    Neither the chunk's bytes nor the challenge's difficulty enter; equal
    seed and chunk identifier give equal expected values. *)
Theorem VerifyProof_expects_hash_of_seed_and_chunk_id
    now db challengeID proofHash durationMs c :
  find_challenge db challengeID = Some c ->
  durationMs <= 2000 ->
  (fst (VerifyProof true now db challengeID proofHash durationMs) = Ok tt <->
   proofHash =
     hex (sha256 (pc_Seed c ++ bytes (UUID_String (pc_ChunkID c))))) /\
  forall db2 challengeID2 c2,
    find_challenge db2 challengeID2 = Some c2 ->
    pc_Seed c2 = pc_Seed c -> pc_ChunkID c2 = pc_ChunkID c ->
    fst (VerifyProof true now db2 challengeID2 proofHash durationMs) =
    fst (VerifyProof true now db challengeID proofHash durationMs).
Proof.
  intros Hfind Hin.
  assert (Hcase : forall d i k, find_challenge d i = Some k ->
            fst (VerifyProof true now d i proofHash durationMs) =
            if String.eqb proofHash (expected_hash k)
            then Ok tt else Err "invalid proof hash").
  { intros d i k Hk. rewrite (VerifyProof_cases _ _ _ _ _ k Hk).
    destruct (Z.ltb_spec 2000 durationMs); [lia|].
    now destruct (String.eqb proofHash (expected_hash k)). }
  split.
  - rewrite (Hcase _ _ _ Hfind).
    change (hex (sha256 (pc_Seed c ++ bytes (UUID_String (pc_ChunkID c)))))
      with (expected_hash c).
    destruct (String.eqb_spec proofHash (expected_hash c));
      split; intros; congruence.
  - intros db2 challengeID2 c2 Hfind2 Hseed Hchunk.
    rewrite (Hcase _ _ _ Hfind), (Hcase _ _ _ Hfind2).
    unfold expected_hash. now rewrite Hseed, Hchunk.
Qed.

Lemma VerifyProof_expects_hash_of_seed_and_chunk_id_witness :
  find_challenge challenged 40 =
    Some (mkProofChallenge 40 5 1 zero_seed 2 "pending" None None None 200) /\
  150 <= 2000 /\
  (fst (VerifyProof true 300 challenged 40 expected_for_challenge 150) = Ok tt
   <-> expected_for_challenge =
       hex (sha256 (zero_seed ++ bytes (UUID_String 5)))).
Proof.
  assert (Hfind : find_challenge challenged 40 =
            Some (mkProofChallenge 40 5 1 zero_seed 2 "pending"
                                   None None None 200))
    by (vm_compute; reflexivity).
  split; [exact Hfind|]. split; [lia|].
  exact (proj1 (VerifyProof_expects_hash_of_seed_and_chunk_id
                  300 challenged 40 expected_for_challenge 150 _
                  Hfind ltac:(lia))).
Defined.

End CoordinatorFacts.

(* ===================================================================== *)
(** ** Further properties of the storage node                             *)
(* ===================================================================== *)

Module StorageNodeMore.
Import Crypto StorageNode Scenario.

Local Abbreviation total := (foldr (fun c acc => SizeBytes c + acc) 0).

(** *** Listing and counting *)

Lemma total_app (l1 l2 : list StoredChunk) : total (l1 ++ l2) = total l1 + total l2.
Proof. induction l1 as [|c l1 IH]; simpl; [reflexivity | rewrite IH; lia]. Qed.

Lemma total_Permutation (l1 l2 : list StoredChunk) :
  l1 ≡ₚ l2 -> total l1 = total l2.
Proof.
  induction 1 as [|x l l' _ IH|x y l|l l' l'' _ IH1 _ IH2]; simpl;
    [reflexivity | now rewrite IH | lia | congruence].
Qed.

Lemma rows_insert_fresh (m : gmap string StoredChunk) i c :
  m !! i = None ->
  filter (fun c => Status c = "active") (snd <$> map_to_list (<[i:=c]> m)) ≡ₚ
  filter (fun c => Status c = "active") [c] ++
  filter (fun c => Status c = "active") (snd <$> map_to_list m).
Proof.
  intros Hnone. rewrite map_to_list_insert by exact Hnone.
  rewrite fmap_cons. simpl. rewrite (filter_cons _ c).
  rewrite (filter_cons _ c []), filter_nil.
  now destruct (decide (Status c = "active")).
Qed.

Lemma rows_split (m : gmap string StoredChunk) i c :
  m !! i = Some c ->
  filter (fun c => Status c = "active") (snd <$> map_to_list m) ≡ₚ
  filter (fun c => Status c = "active") [c] ++
  filter (fun c => Status c = "active") (snd <$> map_to_list (delete i m)).
Proof.
  intros Hsome.
  rewrite <- (rows_insert_fresh (delete i m) i c) by apply lookup_delete_eq.
  now rewrite insert_delete_eq, insert_id.
Qed.

Lemma rows_replace (m : gmap string StoredChunk) i c c' :
  m !! i = Some c ->
  filter (fun c => Status c = "active") (snd <$> map_to_list (<[i:=c']> m)) ≡ₚ
  filter (fun c => Status c = "active") [c'] ++
  filter (fun c => Status c = "active") (snd <$> map_to_list (delete i m)).
Proof.
  intros Hsome. rewrite <- insert_delete_eq.
  apply rows_insert_fresh, lookup_delete_eq.
Qed.

Lemma alter_present (f : StoredChunk -> StoredChunk)
    (m : gmap string StoredChunk) i c :
  m !! i = Some c -> alter f i m = <[i := f c]> m.
Proof.
  intros Hsome. apply map_eq. intros j.
  destruct (decide (i = j)) as [<-|Hne].
  - now rewrite lookup_alter_eq, lookup_insert_eq, Hsome.
  - now rewrite lookup_alter_ne, lookup_insert_ne.
Qed.

Lemma alter_absent (f : StoredChunk -> StoredChunk)
    (m : gmap string StoredChunk) i :
  m !! i = None -> alter f i m = m.
Proof.
  intros Hnone. apply map_eq. intros j.
  destruct (decide (i = j)) as [<-|Hne].
  - now rewrite lookup_alter_eq, Hnone.
  - now rewrite lookup_alter_ne.
Qed.

Lemma elem_of_ListChunks s c :
  c ∈ ListChunks s <->
  Status c = "active" /\ exists id, stored_chunks s !! id = Some c.
Proof.
  unfold ListChunks. rewrite list_elem_of_filter, list_elem_of_fmap.
  split.
  - intros [Hact ([id c'] & -> & Hin)]. apply elem_of_map_to_list in Hin.
    eauto.
  - intros [Hact [id Hrow]]. split; [exact Hact|].
    exists (id, c). split; [reflexivity|]. now apply elem_of_map_to_list.
Qed.

(** Storing a chunk the node does not hold yet raises the chunk count by
    one and the storage total by the number of bytes stored. *)
Theorem store_new_chunk_is_counted
    now s chunkID fileID chunkIndex hash data s' :
  stored_chunks s !! chunkID = None ->
  StoreChunk NoFault now s chunkID fileID chunkIndex hash data = (Ok tt, s') ->
  GetChunkCount s' = GetChunkCount s + 1 /\
  GetTotalStorage s' = GetTotalStorage s + Z.of_nat (length data).
Proof.
  intros Hnone Hput.
  apply StorageNodeFacts.StoreChunk_ok in Hput as (_ & _ & ->).
  unfold GetChunkCount, GetTotalStorage, ListChunks, upsert_chunk. simpl.
  rewrite Hnone.
  pose proof (rows_insert_fresh (stored_chunks s) chunkID
                (mkStoredChunk chunkID fileID chunkIndex hash
                   (Z.of_nat (length data))
                   (chunk_file_path (chunkDir s) chunkID) "active" now now)
                Hnone) as Hperm.
  rewrite (filter_cons _ _ []), filter_nil in Hperm. simpl in Hperm.
  split.
  - rewrite (Permutation_length Hperm). simpl. lia.
  - rewrite (total_Permutation _ _ Hperm). simpl. lia.
Qed.

Lemma store_new_chunk_is_counted_witness :
  stored_chunks peer_with_hello !! "abce" = None /\
  GetChunkCount
    (snd (StoreChunk NoFault 11 peer_with_hello "abce" "file-1" 1 "00"
                     (bytes "other"))) = GetChunkCount peer_with_hello + 1 /\
  GetTotalStorage
    (snd (StoreChunk NoFault 11 peer_with_hello "abce" "file-1" 1 "00"
                     (bytes "other")))
    = GetTotalStorage peer_with_hello + Z.of_nat (length (bytes "other")).
Proof.
  assert (Hnone : stored_chunks peer_with_hello !! "abce" = None)
    by (vm_compute; reflexivity).
  split; [exact Hnone|].
  apply (store_new_chunk_is_counted 11 peer_with_hello "abce" "file-1" 1 "00"
           (bytes "other") _ Hnone).
  reflexivity.
Defined.

(** Deleting a chunk that is listed lowers the chunk count by one and the
    storage total by the recorded size of the chunk. *)
Theorem delete_active_chunk_is_discounted now s chunkID c :
  stored_chunks s !! chunkID = Some c ->
  Status c = "active" ->
  GetChunkCount (snd (DeleteChunk true now s chunkID)) = GetChunkCount s - 1 /\
  GetTotalStorage (snd (DeleteChunk true now s chunkID))
    = GetTotalStorage s - SizeBytes c.
Proof.
  intros Hrow Hact.
  unfold GetChunkCount, GetTotalStorage, ListChunks, DeleteChunk. simpl.
  rewrite (alter_present _ _ _ _ Hrow).
  pose proof (rows_replace (stored_chunks s) chunkID c (mark_deleted now c) Hrow)
    as Hafter.
  pose proof (rows_split (stored_chunks s) chunkID c Hrow) as Hbefore.
  rewrite (filter_cons _ _ []), filter_nil in Hafter.
  rewrite (filter_cons _ _ []), filter_nil in Hbefore.
  simpl in Hafter, Hbefore.
  destruct (decide (Status c = "active")) as [_|Hno]; [|contradiction].
  split.
  - rewrite (Permutation_length Hafter), (Permutation_length Hbefore).
    simpl. lia.
  - rewrite (total_Permutation _ _ Hafter), (total_Permutation _ _ Hbefore).
    simpl. lia.
Qed.

Lemma delete_active_chunk_is_discounted_witness :
  GetChunkCount (snd (DeleteChunk true 20 peer_with_hello "abcd"))
    = GetChunkCount peer_with_hello - 1 /\
  GetTotalStorage (snd (DeleteChunk true 20 peer_with_hello "abcd"))
    = GetTotalStorage peer_with_hello - 5.
Proof.
  apply (delete_active_chunk_is_discounted 20 peer_with_hello "abcd"
           (mkStoredChunk "abcd" "file-1" 0 hello_hash 5
                          "data/chunks/ab/cd/abcd" "active" 10 10)).
  - vm_compute. reflexivity.
  - reflexivity.
Defined.

(** Deleting a chunk the node has no row for returns without error and
    leaves the index and the disk exactly as they were. *)
Theorem delete_unknown_chunk_changes_nothing now s chunkID :
  stored_chunks s !! chunkID = None ->
  DeleteChunk true now s chunkID = (Ok tt, s).
Proof.
  intros Hnone. unfold DeleteChunk, with_rows.
  rewrite (alter_absent _ _ _ Hnone). now destruct s.
Qed.

Lemma delete_unknown_chunk_changes_nothing_witness :
  DeleteChunk true 20 peer_with_hello "zzzz" = (Ok tt, peer_with_hello).
Proof.
  apply (delete_unknown_chunk_changes_nothing 20 peer_with_hello "zzzz").
  vm_compute. reflexivity.
Defined.

(** *** Paths *)

Lemma components_not_nil (path : string) : components path <> [].
Proof.
  destruct path as [|c rest]; simpl; [discriminate|].
  destruct (Ascii.eqb c "/"); [discriminate|].
  destruct (components rest); discriminate.
Qed.

Lemma components_join (a b : string) :
  components (a +:+ String "/" b) = components a ++ components b.
Proof.
  induction a as [|c a IH]; simpl; [reflexivity|].
  destruct (Ascii.eqb c "/"); [now rewrite IH|].
  rewrite IH. pose proof (components_not_nil a) as Hne.
  now destruct (components a).
Qed.

Lemma components_file_name (s : string) :
  file_name s = true -> components s = [s].
Proof.
  unfold file_name. intros H. apply andb_true_iff in H as [_ H].
  apply negb_true_iff in H. unfold has_separator in H.
  induction s as [|c s IH]; simpl in *; [reflexivity|].
  apply orb_false_iff in H as [Hc Hs]. apply orb_false_iff in Hc as [Hc _].
  rewrite Hc, (IH Hs). reflexivity.
Qed.

(** The path of a plain chunk id, taken apart at its separators, is the
    pieces of the chunk directory followed by exactly three file names:
    the first two bytes of the id, its next two bytes, and the id. Two
    different plain ids therefore get paths that differ in their last
    piece, and no [.], [..] or extra separator is there to lead one of
    them to the file of the other. *)
Theorem distinct_chunks_distinct_files dir id1 id2 :
  plain_id id1 = true -> plain_id id2 = true -> id1 <> id2 ->
  components (chunk_file_path dir id1) =
    components dir ++ [substring 0 2 id1; substring 2 2 id1; id1] /\
  components (chunk_file_path dir id2) =
    components dir ++ [substring 0 2 id2; substring 2 2 id2; id2] /\
  Forall (fun piece => file_name piece = true)
         [substring 0 2 id1; substring 2 2 id1; id1;
          substring 0 2 id2; substring 2 2 id2; id2] /\
  components (chunk_file_path dir id1) <> components (chunk_file_path dir id2).
Proof.
  intros H1 H2 Hne.
  assert (Hpath : forall id, plain_id id = true ->
            Forall (fun piece => file_name piece = true)
                   [substring 0 2 id; substring 2 2 id; id] /\
            components (chunk_file_path dir id) =
              components dir ++ [substring 0 2 id; substring 2 2 id; id]).
  { intros id Hid. unfold plain_id in Hid.
    apply andb_true_iff in Hid as [Hid Hc]. apply andb_true_iff in Hid as [Hid Hb].
    apply andb_true_iff in Hid as [_ Ha].
    split; [repeat constructor; assumption|].
    unfold chunk_file_path, chunk_dir_path.
    change ("/" +:+ id) with (String "/" id).
    change ("/" +:+ substring 0 2 id +:+ "/" +:+ substring 2 2 id)
      with (String "/" (substring 0 2 id +:+ String "/" (substring 2 2 id))).
    rewrite !components_join.
    rewrite (components_file_name _ Ha), (components_file_name _ Hb),
      (components_file_name _ Hc).
    now rewrite <- !app_assoc. }
  destruct (Hpath id1 H1) as [Hn1 Hc1]. destruct (Hpath id2 H2) as [Hn2 Hc2].
  split; [exact Hc1|]. split; [exact Hc2|]. split.
  - exact (proj2 (Forall_app _ [_; _; _] [_; _; _]) (conj Hn1 Hn2)).
  - rewrite Hc1, Hc2. intros Heq. apply app_inv_head in Heq.
    apply Hne. congruence.
Qed.

Lemma distinct_chunks_distinct_files_witness :
  components (chunk_file_path "data/chunks" "abcd") =
    ["data"; "chunks"; "ab"; "cd"; "abcd"] /\
  components (chunk_file_path "data/chunks" "abce") =
    ["data"; "chunks"; "ab"; "ce"; "abce"].
Proof.
  destruct (distinct_chunks_distinct_files "data/chunks" "abcd" "abce"
              eq_refl eq_refl ltac:(discriminate))
    as (H1 & H2 & _).
  split; [exact H1 | exact H2].
Defined.

(** An identifier with separators in it is not plain: its path steps
    through [.] and back through [..], and where the directories on the
    way exist it ends at the file of chunk "abcd". *)
Example path_of_an_id_with_separators :
  plain_id "ab/../cd/abcd" = false /\
  components (chunk_file_path "data/chunks" "ab/../cd/abcd") =
    ["data"; "chunks"; "ab"; ""; "."; "ab"; ".."; "cd"; "abcd"] /\
  components (chunk_file_path "data/chunks" "abcd") =
    ["data"; "chunks"; "ab"; "cd"; "abcd"].
Proof. repeat split. Qed.

(** *** Storing again *)

(** Storing a chunk the node already has a row for replaces file, hash,
    size and path but keeps the row's status and creation time: a chunk
    that was deleted stays deleted and uncounted, and yet its new bytes can
    be read. *)
Theorem store_again_keeps_status
    now s chunkID fileID chunkIndex hash data old s' :
  stored_chunks s !! chunkID = Some old ->
  StoreChunk NoFault now s chunkID fileID chunkIndex hash data = (Ok tt, s') ->
  stored_chunks s' !! chunkID =
    Some (mkStoredChunk chunkID fileID chunkIndex hash (Z.of_nat (length data))
            (chunk_file_path (chunkDir s) chunkID)
            (Status old) (CreatedAt old) now) /\
  GetChunkData s' chunkID = Ok data /\
  (Status old <> "active" ->
   GetChunkCount s' = GetChunkCount s /\
   GetTotalStorage s' = GetTotalStorage s).
Proof.
  intros Hold Hput.
  pose proof (StorageNodeFacts.StoreChunk_holds _ _ _ _ _ _ _ _ _ Hput)
    as [Hholds _].
  apply StorageNodeFacts.StoreChunk_ok in Hput as (_ & _ & ->).
  assert (Hrow : upsert_chunk now chunkID fileID chunkIndex hash
                   (Z.of_nat (length data))
                   (chunk_file_path (chunkDir s) chunkID) (stored_chunks s)
                   !! chunkID
                 = Some (mkStoredChunk chunkID fileID chunkIndex hash
                           (Z.of_nat (length data))
                           (chunk_file_path (chunkDir s) chunkID)
                           (Status old) (CreatedAt old) now)).
  { unfold upsert_chunk. rewrite Hold. apply lookup_insert_eq. }
  split; [exact Hrow|].
  split; [now apply StorageNodeFacts.holds_GetChunkData|].
  intros Hinactive.
  unfold GetChunkCount, GetTotalStorage, ListChunks, upsert_chunk. simpl.
  rewrite Hold.
  pose proof (rows_replace (stored_chunks s) chunkID old
                (mkStoredChunk chunkID fileID chunkIndex hash
                   (Z.of_nat (length data))
                   (chunk_file_path (chunkDir s) chunkID)
                   (Status old) (CreatedAt old) now) Hold) as Hafter.
  pose proof (rows_split (stored_chunks s) chunkID old Hold) as Hbefore.
  rewrite (filter_cons _ _ []), filter_nil in Hafter.
  rewrite (filter_cons _ _ []), filter_nil in Hbefore.
  simpl in Hafter, Hbefore.
  destruct (decide (Status old = "active")) as [Hyes|_]; [contradiction|].
  split.
  - now rewrite (Permutation_length Hafter), (Permutation_length Hbefore).
  - now rewrite (total_Permutation _ _ Hafter), (total_Permutation _ _ Hbefore).
Qed.

Lemma store_again_keeps_status_witness :
  stored_chunks
    (snd (StoreChunk NoFault 30 peer_after_delete "abcd" "file-1" 0 "11"
                     (bytes "again"))) !! "abcd" =
    Some (mkStoredChunk "abcd" "file-1" 0 "11" 5 "data/chunks/ab/cd/abcd"
                        "deleted" 10 30) /\
  GetChunkData
    (snd (StoreChunk NoFault 30 peer_after_delete "abcd" "file-1" 0 "11"
                     (bytes "again"))) "abcd" = Ok (bytes "again").
Proof.
  destruct (store_again_keeps_status 30 peer_after_delete "abcd" "file-1" 0
              "11" (bytes "again")
              (mkStoredChunk "abcd" "file-1" 0 hello_hash 5
                             "data/chunks/ab/cd/abcd" "deleted" 10 20)
              (snd (StoreChunk NoFault 30 peer_after_delete "abcd" "file-1" 0
                               "11" (bytes "again"))))
    as (Hrow & Hdata & _).
  - vm_compute. reflexivity.
  - reflexivity.
  - split; [exact Hrow | exact Hdata].
Defined.

(** When the insert of a store fails, the clean-up removes the file it has
    just written, also when that file held an earlier version of the chunk:
    the row of the earlier version stays, its bytes are gone. *)
Theorem failed_store_loses_earlier_bytes
    now s chunkID fileID chunkIndex hash data old :
  holds s chunkID old ->
  (4 <= String.length chunkID)%nat ->
  exists s',
    StoreChunk ExecFails now s chunkID fileID chunkIndex hash data =
      (Err "failed to store chunk metadata", s') /\
    stored_chunks s' = stored_chunks s /\
    GetChunkData s' chunkID = Err "failed to read chunk from disk".
Proof.
  intros (c & Hrow & Hpath & Hfile) Hlen. unfold StoreChunk.
  destruct (String.length chunkID <? 4)%nat eqn:E.
  { apply Nat.ltb_lt in E. lia. }
  eexists. split; [reflexivity|]. split; [reflexivity|].
  unfold GetChunkData, GetChunk. simpl. rewrite Hrow. simpl.
  now rewrite Hpath, lookup_delete_eq.
Qed.

Lemma failed_store_loses_earlier_bytes_witness :
  GetChunkData peer_with_hello "abcd" = Ok hello /\
  exists s',
    StoreChunk ExecFails 30 peer_with_hello "abcd" "file-1" 0 hello_hash hello =
      (Err "failed to store chunk metadata", s') /\
    stored_chunks s' = stored_chunks peer_with_hello /\
    GetChunkData s' "abcd" = Err "failed to read chunk from disk".
Proof.
  split; [vm_compute; reflexivity|].
  apply (failed_store_loses_earlier_bytes 30 peer_with_hello "abcd" "file-1" 0
           hello_hash hello hello).
  - apply (StorageNodeFacts.StoreChunk_holds NoFault 10
             (NewChunkService "data/chunks") "abcd" "file-1" 0 hello_hash hello).
    reflexivity.
  - simpl. lia.
Defined.

(** *** Hashes over sequences *)

(** Starting from an empty store, after any sequence of stores and deletes
    on plain chunk ids in which every store supplies the SHA-256 of its
    bytes and no write stops half-way, every chunk whose bytes can be read
    has bytes that hash to its recorded hash. *)
Theorem honest_sequences_keep_hashes dir ops s chunkID c data :
  Forall (fun o => plain_id (op_chunk o) = true) ops ->
  Forall honest ops ->
  run (NewChunkService dir) ops = Some s ->
  GetChunk s chunkID = Ok c ->
  GetChunkData s chunkID = Ok data ->
  hex (sha256 data) = Hash c.
Proof.
  intros _ Hall Hrun Hrow Hdata.
  pose proof (StorageNodeFacts.honest_stores_keep_hashes ops _ _ Hall Hrun
                (StorageNodeFacts.new_store_hashes_agree dir)) as Hinv.
  unfold GetChunkData in Hdata. rewrite Hrow in Hdata. simpl in Hdata.
  unfold GetChunk in Hrow.
  destruct (stored_chunks s !! chunkID) as [c'|] eqn:Hc; [|discriminate].
  injection Hrow as ->.
  destruct (Hinv chunkID c Hc) as (_ & _ & Hhash).
  destruct (disk s !! FilePath c) as [d|] eqn:Hd; [|discriminate].
  injection Hdata as ->. now apply Hhash.
Qed.

Lemma honest_sequences_keep_hashes_witness :
  hex (sha256 hello) = hello_hash.
Proof.
  apply (honest_sequences_keep_hashes "data/chunks"
           [OpStore NoFault 10 "abcd" "file-1" 0 hello_hash hello;
            OpStore ExecFails 11 "abce" "file-1" 1
                    (hex (sha256 (bytes "lost"))) (bytes "lost");
            OpDelete true 12 "abcd"]
           (snd (DeleteChunk true 12 peer_with_hello "abcd")) "abcd"
           (mkStoredChunk "abcd" "file-1" 0 hello_hash 5
                          "data/chunks/ab/cd/abcd" "deleted" 10 12) hello).
  - repeat constructor.
  - repeat constructor; try discriminate; vm_compute; reflexivity.
  - vm_compute. reflexivity.
  - vm_compute. reflexivity.
  - vm_compute. reflexivity.
Defined.

(** *** The proof engine once more *)

(** The answer of the proof engine for a chunk is the same after the chunk
    has been deleted, and the same after a failed store has removed the
    chunk's file: the engine answers as long as the row is there. *)
Theorem proof_survives_delete_and_file_loss
    elapsed s chunkID seed difficulty ok now now' fileID chunkIndex hash data :
  GenerateProof elapsed (snd (DeleteChunk ok now s chunkID)) chunkID seed
                difficulty
    = GenerateProof elapsed s chunkID seed difficulty /\
  GenerateProof elapsed
    (snd (StoreChunk ExecFails now' s chunkID fileID chunkIndex hash data))
    chunkID seed difficulty
    = GenerateProof elapsed s chunkID seed difficulty.
Proof.
  split.
  - unfold GenerateProof, GetChunk, DeleteChunk.
    destruct ok; [|reflexivity]. simpl. rewrite lookup_alter_eq.
    now destruct (stored_chunks s !! chunkID).
  - unfold StoreChunk.
    now destruct (String.length chunkID <? 4)%nat.
Qed.

(** SHA-256 digests have 32 bytes, their hexadecimal form 64 characters. *)
Lemma length_hex (bs : list byte) :
  String.length (hex bs) = (2 * length bs)%nat.
Proof. induction bs as [|b bs IH]; simpl; [reflexivity | rewrite IH; lia]. Qed.

Lemma length_big_endian (w : nat) (x : Z) : length (big_endian w x) = w.
Proof. induction w as [|w IH]; simpl; [reflexivity | now rewrite IH]. Qed.

Lemma length_compress (h block : list Z) :
  length h = 8%nat -> length (compress h block) = 8%nat.
Proof.
  intros Hh. unfold compress. rewrite length_map, length_combine, Hh.
  reflexivity.
Qed.

Lemma length_fold_compress (bl : list (list Z)) :
  forall h, length h = 8%nat -> length (fold_left compress bl h) = 8%nat.
Proof.
  induction bl as [|b bl IH]; intros h Hh; simpl; [exact Hh|].
  apply IH, length_compress, Hh.
Qed.

Lemma length_concat_words (h : list Z) :
  length (concat (map (big_endian 4) h)) = (4 * length h)%nat.
Proof.
  induction h as [|x h IH]; [reflexivity|].
  change (concat (map (big_endian 4) (x :: h)))
    with (big_endian 4 x ++ concat (map (big_endian 4) h)).
  rewrite length_app, length_big_endian, IH. simpl length. lia.
Qed.

Lemma length_sha256 (data : list byte) : length (sha256 data) = 32%nat.
Proof.
  unfold sha256. rewrite length_map, length_concat_words.
  rewrite length_fold_compress; reflexivity.
Qed.

(** For a difficulty of at least one, the proof hash the engine returns
    has exactly 64 characters, whatever the seed and the recorded hash. *)
Theorem proof_hash_has_64_characters elapsed s chunkID seed difficulty r :
  1 <= difficulty ->
  GenerateProof elapsed s chunkID seed difficulty = Ok r ->
  String.length (ProofHash r) = 64%nat.
Proof.
  intros Hd. unfold GenerateProof.
  destruct (GetChunk s chunkID) as [c| |]; try discriminate.
  intros [= <-]. simpl. rewrite length_hex.
  destruct (Z.to_nat difficulty) as [|n] eqn:E; [lia|].
  rewrite StorageNodeFacts.hash_loop_iter. simpl.
  now rewrite length_sha256.
Qed.

Lemma proof_hash_has_64_characters_witness :
  String.length
    "2e919fd10ec3fd73822a348e85993742c05d1ebe341b4a00b101ef084ced5781"
    = 64%nat.
Proof.
  apply (proof_hash_has_64_characters 3 peer_with_hello "abcd" zero_seed 1
           (mkProofResult
              "2e919fd10ec3fd73822a348e85993742c05d1ebe341b4a00b101ef084ced5781"
              3)).
  - lia.
  - vm_compute. reflexivity.
Defined.

End StorageNodeMore.

(* ===================================================================== *)
(** ** Further properties of the coordinator                              *)
(* ===================================================================== *)

Module RegistryFacts.
Import Crypto Coordinator Registry Scenario.

(** *** Registration *)

Lemma find_app_none {A : Type} (p : A -> bool) (l1 l2 : list A) :
  existsb p l1 = false -> find p (l1 ++ l2) = find p l2.
Proof.
  induction l1 as [|x l1 IH]; simpl; [reflexivity|].
  destruct (p x); [discriminate | exact IH].
Qed.

Lemma existsb_peer_spec (l : list StorageNode) (peerID : string) :
  existsb (fun n => String.eqb (PeerID n) peerID) l = true <->
  peerID ∈ map PeerID l.
Proof.
  rewrite existsb_exists, list_elem_of_In, in_map_iff.
  split; intros (n & H1 & H2).
  - apply String.eqb_eq in H2. eauto.
  - exists n. split; [exact H2 | now apply String.eqb_eq].
Qed.

(** A registration for a peer id that is already in the registry is
    refused and changes nothing. *)
Theorem register_refuses_known_peer exec_ok now keyUUID nodeUUID db req :
  req_PeerID req ∈ map PeerID (storage_nodes db) ->
  RegisterNode exec_ok now keyUUID nodeUUID db req =
    (Err "node with this peer_id already exists", db).
Proof.
  intros Hin. unfold RegisterNode.
  apply existsb_peer_spec in Hin. now rewrite Hin.
Qed.

Lemma register_refuses_known_peer_witness :
  RegisterNode true 70 11 12 registry
               (mkRegisterNodeRequest "again" "peer-a" [] "" 1) =
    (Err "node with this peer_id already exists", registry).
Proof.
  apply (register_refuses_known_peer true 70 11 12 registry
           (mkRegisterNodeRequest "again" "peer-a" [] "" 1)).
  vm_compute. apply list_elem_of_here.
Defined.

(** What a successful registration returns and writes. *)
Lemma RegisterNode_ok now keyUUID nodeUUID db req node apiKey db' :
  RegisterNode true now keyUUID nodeUUID db req = (Ok (node, apiKey), db') ->
  existsb (fun n => String.eqb (PeerID n) (req_PeerID req)) (storage_nodes db)
    = false /\
  apiKey = "fsn_" +:+ UUID_String keyUUID /\
  ID node = nodeUUID /\
  exists row,
    db' = with_nodes db (storage_nodes db ++ [row]) /\
    PeerID row = req_PeerID req /\ APIKeyHash row = apiKey /\
    ID row = nodeUUID /\ Status row = "active" /\
    UsedStorageBytes row = 0 /\ EarnedCredits row = 0 /\
    LastHeartbeat row = None.
Proof.
  unfold RegisterNode.
  destruct (existsb _ (storage_nodes db)) eqn:Hex; [discriminate|].
  intros [= <- <- <-]. split; [reflexivity|]. split; [reflexivity|].
  split; [reflexivity|]. eexists. split; [reflexivity|]. repeat split.
Qed.

(** A row appended under a peer id that no row has yet is the one found
    for that peer id. *)
Lemma appended_row_is_found db row :
  existsb (fun n => String.eqb (PeerID n) (PeerID row)) (storage_nodes db)
    = false ->
  GetNodeByPeerID (with_nodes db (storage_nodes db ++ [row])) (PeerID row)
    = Ok row /\
  (Status row = "active" ->
   GetAPIKeyHash (with_nodes db (storage_nodes db ++ [row])) (PeerID row)
     = Ok (APIKeyHash row)).
Proof.
  intros Hex. unfold GetNodeByPeerID, GetAPIKeyHash. simpl.
  rewrite (find_app_none _ _ _ Hex). simpl. rewrite String.eqb_refl.
  split; [reflexivity|]. intros Hact.
  rewrite find_app_none.
  - simpl. now rewrite String.eqb_refl, Hact.
  - apply not_true_is_false. intros Hyes.
    apply existsb_exists in Hyes as (n & Hin & Hp).
    apply andb_true_iff in Hp as [Hp _].
    assert (existsb (fun n => String.eqb (PeerID n) (PeerID row))
                    (storage_nodes db) = true)
      by (apply existsb_exists; eauto).
    congruence.
Qed.

(** After a successful registration the node is found under its peer id,
    with status active, nothing used and nothing earned; the key handed
    back is the text "fsn_" followed by a UUID and is exactly what is
    stored for the authentication of the peer; the rows that were there
    before are unchanged. *)
Theorem registered_node_is_found
    now keyUUID nodeUUID db req node apiKey db' :
  RegisterNode true now keyUUID nodeUUID db req = (Ok (node, apiKey), db') ->
  exists row,
    storage_nodes db' = storage_nodes db ++ [row] /\
    GetNodeByPeerID db' (req_PeerID req) = Ok row /\
    GetAPIKeyHash db' (req_PeerID req) = Ok apiKey /\
    apiKey = "fsn_" +:+ UUID_String keyUUID /\
    ID row = nodeUUID /\ ID node = nodeUUID /\
    Status row = "active" /\ UsedStorageBytes row = 0 /\
    EarnedCredits row = 0 /\ LastHeartbeat row = None.
Proof.
  intros Hreg.
  apply RegisterNode_ok in Hreg
    as (Hex & Hfsn & Hnode & row & -> & Hpeer & Hkey & Hid & Hact & Hrest).
  rewrite <- Hpeer in Hex |- *.
  destruct (appended_row_is_found db row Hex) as [Hfound Hhash].
  exists row. split; [reflexivity|]. split; [exact Hfound|].
  split; [rewrite <- Hkey; now apply Hhash|]. tauto.
Qed.

Lemma registered_node_is_found_witness :
  exists row,
    storage_nodes
      (snd (RegisterNode true 70 11 12 registry
              (mkRegisterNodeRequest "node-c" "peer-c" [] "" 100)))
      = storage_nodes registry ++ [row] /\
    GetAPIKeyHash
      (snd (RegisterNode true 70 11 12 registry
              (mkRegisterNodeRequest "node-c" "peer-c" [] "" 100))) "peer-c"
      = Ok "fsn_00000000-0000-0000-0000-00000000000b" /\
    TotalStorageBytes row = 107374182400.
Proof.
  destruct (registered_node_is_found 70 11 12 registry
              (mkRegisterNodeRequest "node-c" "peer-c" [] "" 100)
              (mkStorageNode 12 "node-c" "peer-c" [] ""
                 "fsn_00000000-0000-0000-0000-00000000000b" "active"
                 107374182400 0 0 10000 None 0 0)
              "fsn_00000000-0000-0000-0000-00000000000b"
              (snd (RegisterNode true 70 11 12 registry
                      (mkRegisterNodeRequest "node-c" "peer-c" [] "" 100))))
    as (row & Hrows & _ & Hkey & _).
  - vm_compute. reflexivity.
  - exists row. split; [exact Hrows|]. split; [exact Hkey|].
    vm_compute in Hrows. now injection Hrows as <-.
Defined.

(** Peer ids stay unique: neither a registration (whatever its outcome)
    nor a heartbeat introduces a second row with the same peer id. *)
Theorem peer_ids_stay_unique
    exec_ok now keyUUID nodeUUID db req hb :
  NoDup (map PeerID (storage_nodes db)) ->
  NoDup (map PeerID
           (storage_nodes (snd (RegisterNode exec_ok now keyUUID nodeUUID db req))))
  /\
  NoDup (map PeerID (storage_nodes (snd (Heartbeat exec_ok now db hb)))).
Proof.
  intros Hnodup. split.
  - unfold RegisterNode.
    destruct (existsb _ (storage_nodes db)) eqn:Hex; [exact Hnodup|].
    destruct exec_ok; [|exact Hnodup]. simpl.
    rewrite map_app. simpl. apply NoDup_app. split; [exact Hnodup|].
    split; [|apply NoDup_singleton].
    intros p Hp Hnew. apply list_elem_of_singleton in Hnew as ->.
    apply existsb_peer_spec in Hp. congruence.
  - unfold Heartbeat.
    destruct (String.eqb (X_Peer_ID hb) ""); [exact Hnodup|].
    destruct (body hb) as [r|]; [|exact Hnodup].
    destruct (GetNodeByPeerID db (X_Peer_ID hb)) as [node| |];
      try exact Hnodup.
    unfold UpdateHeartbeat. destruct exec_ok; [|exact Hnodup]. simpl.
    rewrite map_map.
    erewrite map_ext; [exact Hnodup|].
    intros n. simpl. now destruct (N.eqb (ID n) (ID node)).
Qed.

Lemma peer_ids_stay_unique_witness :
  NoDup (map PeerID (storage_nodes registry)) /\
  NoDup (map PeerID
           (storage_nodes
              (snd (RegisterNode true 70 11 12 registry
                      (mkRegisterNodeRequest "node-c" "peer-c" [] "" 100))))).
Proof.
  assert (H : NoDup (map PeerID (storage_nodes registry))).
  { apply (bool_decide_unpack _). vm_compute. exact I. }
  split; [exact H|].
  exact (proj1 (peer_ids_stay_unique true 70 11 12 registry
                  (mkRegisterNodeRequest "node-c" "peer-c" [] "" 100)
                  heartbeat_of_dead_node H)).
Defined.

(** *** Authentication and heartbeats *)

(** A heartbeat gets through the route only with the key that is stored
    for a row of that peer id whose status is active. *)
Theorem heartbeat_route_checks_key exec_ok now db req resp db' :
  heartbeat_route exec_ok now db req = (resp, db') ->
  StatusCode resp = 200 ->
  exists n,
    n ∈ storage_nodes db /\ PeerID n = X_Peer_ID req /\
    Status n = "active" /\ APIKeyHash n = X_API_Key req.
Proof.
  unfold heartbeat_route, NodeAuthMiddleware.
  destruct (_ || _); [intros [= <- _]; discriminate|].
  unfold GetAPIKeyHash.
  destruct (find _ (storage_nodes db)) as [n|] eqn:Hfind;
    [|intros [= <- _]; discriminate].
  simpl.
  destruct (String.eqb_spec (X_API_Key req) (APIKeyHash n)) as [Hkey|_];
    [|intros [= <- _]; discriminate].
  intros _ _. apply find_some in Hfind as [Hin Hp].
  apply andb_true_iff in Hp as [Hpeer Hact].
  apply String.eqb_eq in Hpeer, Hact.
  exists n. split; [now apply list_elem_of_In|]. auto.
Qed.

(** A node that has just registered can send its heartbeat: with the peer
    id it registered and the key it was given, the route answers 200 and
    the time of the heartbeat is recorded. *)
Theorem registered_node_can_heartbeat
    now keyUUID nodeUUID db req node apiKey db' now' used :
  req_PeerID req <> "" ->
  RegisterNode true now keyUUID nodeUUID db req = (Ok (node, apiKey), db') ->
  exists row db'',
    heartbeat_route true now' db'
      (mkRequest (req_PeerID req) apiKey (Some (mkHeartbeatRequest used)))
      = (mkResponse 200 (Some 0), db'') /\
    GetNodeByPeerID db'' (req_PeerID req) = Ok row /\
    LastHeartbeat row = Some now' /\ UsedStorageBytes row = used.
Proof.
  intros Hpeer Hreg.
  apply RegisterNode_ok in Hreg
    as (Hex & Hfsn & _ & row & Hdb & Hrow & Hstored & _ & Hact & _ & Hearned & _).
  rewrite <- Hrow in Hex.
  destruct (appended_row_is_found db row Hex) as [Hfound Hkey].
  specialize (Hkey Hact).
  rewrite <- Hdb, Hrow in Hfound. rewrite <- Hdb, Hrow, Hstored in Hkey.
  destruct (Heartbeat true now' db'
              (mkRequest (req_PeerID req) apiKey
                         (Some (mkHeartbeatRequest used))))
    as [resp db''] eqn:Hhb.
  assert (Hresp : resp = mkResponse 200 (Some 0)).
  { pose proof (CoordinatorFacts.heartbeat_succeeds now' db'
                  (mkRequest (req_PeerID req) apiKey
                             (Some (mkHeartbeatRequest used)))
                  (mkHeartbeatRequest used) row Hpeer eq_refl Hfound) as H.
    rewrite Hhb in H. simpl in H. now rewrite Hearned in H. }
  subst resp.
  exists (beat now' used row), db''. split.
  - unfold heartbeat_route, NodeAuthMiddleware. simpl.
    destruct (String.eqb_spec (req_PeerID req) ""); [contradiction|].
    rewrite Hfsn at 1. simpl. rewrite Hkey, String.eqb_refl. exact Hhb.
  - unfold Heartbeat in Hhb. simpl in Hhb.
    destruct (String.eqb_spec (req_PeerID req) ""); [contradiction|].
    rewrite Hfound in Hhb. simpl in Hhb. injection Hhb as _ <-.
    split; [|split; reflexivity].
    unfold GetNodeByPeerID in *. simpl.
    destruct (find _ (storage_nodes db')) as [found|] eqn:Hfind;
      [|discriminate].
    injection Hfound as ->.
    rewrite CoordinatorFacts.find_map_same_key, Hfind; simpl.
    + now rewrite N.eqb_refl.
    + intros x. now destruct (N.eqb (ID x) (ID row)).
Qed.

Lemma registered_node_can_heartbeat_witness :
  exists row db'',
    heartbeat_route true 80
      (snd (RegisterNode true 70 11 12 registry
              (mkRegisterNodeRequest "node-c" "peer-c" [] "" 100)))
      (mkRequest "peer-c" "fsn_00000000-0000-0000-0000-00000000000b"
                 (Some (mkHeartbeatRequest 4096)))
      = (mkResponse 200 (Some 0), db'') /\
    GetNodeByPeerID db'' "peer-c" = Ok row /\
    LastHeartbeat row = Some 80 /\ UsedStorageBytes row = 4096.
Proof.
  apply (registered_node_can_heartbeat 70 11 12 registry
           (mkRegisterNodeRequest "node-c" "peer-c" [] "" 100)
           (mkStorageNode 12 "node-c" "peer-c" [] ""
              "fsn_00000000-0000-0000-0000-00000000000b" "active"
              107374182400 0 0 10000 None 0 0)
           "fsn_00000000-0000-0000-0000-00000000000b"
           (snd (RegisterNode true 70 11 12 registry
                   (mkRegisterNodeRequest "node-c" "peer-c" [] "" 100)))
           80 4096).
  - discriminate.
  - vm_compute. reflexivity.
Defined.

(** A heartbeat that is not answered with 200 changes nothing, and a
    heartbeat never touches the row of a node with another id, nor any
    other table. *)
Theorem heartbeat_touches_one_node exec_ok now db req :
  let resp := fst (Heartbeat exec_ok now db req) in
  let db' := snd (Heartbeat exec_ok now db req) in
  (StatusCode resp <> 200 -> db' = db) /\
  (forall node n,
     GetNodeByPeerID db (X_Peer_ID req) = Ok node ->
     n ∈ storage_nodes db -> ID n <> ID node -> n ∈ storage_nodes db') /\
  chunks db' = chunks db /\
  chunk_assignments db' = chunk_assignments db /\
  proof_challenges db' = proof_challenges db.
Proof.
  unfold Heartbeat.
  destruct (String.eqb (X_Peer_ID req) ""); [simpl; auto|].
  destruct (body req) as [r|]; [|simpl; auto].
  destruct (GetNodeByPeerID db (X_Peer_ID req)) as [node| |];
    try (simpl; now auto).
  unfold UpdateHeartbeat. destruct exec_ok; [|simpl; auto].
  simpl. split; [intros H; now contradiction H|].
  split; [|auto].
  intros node' n [= <-] Hin Hne.
  apply list_elem_of_In, in_map_iff. exists n.
  split; [|now apply list_elem_of_In].
  destruct (N.eqb_spec (ID n) (ID node)); [contradiction | reflexivity].
Qed.

(** *** Listing nodes *)

(** Every node that is listed has status active and carries no stored key,
    and every row with status active is listed, with its id, peer id and
    address. *)
Theorem listed_nodes_are_active_without_keys db :
  Forall (fun n => Status n = "active" /\ APIKeyHash n = "") (GetAllNodes db) /\
  (forall row, row ∈ storage_nodes db -> Status row = "active" ->
               exists n, n ∈ GetAllNodes db /\ ID n = ID row /\
                         PeerID n = PeerID row /\ Address n = Address row) /\
  (forall n, n ∈ GetAllNodes db ->
             exists row, row ∈ storage_nodes db /\ ID row = ID n /\
                         PeerID row = PeerID n).
Proof.
  unfold GetAllNodes. split; [|split].
  - apply Forall_forall. intros n Hin.
    apply list_elem_of_In, in_map_iff in Hin as (row & <- & Hin).
    apply filter_In in Hin as [_ Hact]. simpl.
    split; [now apply String.eqb_eq in Hact | reflexivity].
  - intros row Hin Hact. exists (scan_listed row).
    split; [|repeat split].
    apply list_elem_of_In, in_map, filter_In.
    split; [now apply list_elem_of_In|].
    unfold has_active_status. now apply String.eqb_eq.
  - intros n Hin.
    apply list_elem_of_In, in_map_iff in Hin as (row & <- & Hin).
    apply filter_In in Hin as [Hin _].
    exists row. split; [now apply list_elem_of_In|]. split; reflexivity.
Qed.

Lemma heartbeat_route_checks_key_witness :
  exists n,
    n ∈ storage_nodes registry /\ PeerID n = "peer-a" /\
    Status n = "active" /\ APIKeyHash n = "fsn_key_a".
Proof.
  apply (heartbeat_route_checks_key true 300 registry
           (mkRequest "peer-a" "fsn_key_a" (Some (mkHeartbeatRequest 1)))
           (fst (heartbeat_route true 300 registry
                   (mkRequest "peer-a" "fsn_key_a"
                              (Some (mkHeartbeatRequest 1)))))
           (snd (heartbeat_route true 300 registry
                   (mkRequest "peer-a" "fsn_key_a"
                              (Some (mkHeartbeatRequest 1)))))).
  - reflexivity.
  - vm_compute. reflexivity.
Defined.

(** *** Challenges *)

Lemma update_challenge_other f challengeID db other :
  other <> challengeID ->
  (forall c, pc_ID (f c) = pc_ID c) ->
  find_challenge (update_challenge f challengeID db) other =
  find_challenge db other.
Proof.
  intros Hne Hid. unfold find_challenge, update_challenge. simpl.
  induction (proof_challenges db) as [|c l IH]; simpl; [reflexivity|].
  destruct (N.eqb_spec (pc_ID c) challengeID) as [Heq|Hneq].
  - rewrite Hid.
    destruct (N.eqb_spec (pc_ID c) other); [congruence | exact IH].
  - destruct (N.eqb (pc_ID c) other); [reflexivity | exact IH].
Qed.

(** A verification call for an unknown challenge reports that and changes
    nothing; a call for a known one never changes another challenge. *)
Theorem VerifyProof_touches_one_challenge
    exec_ok now db challengeID proofHash durationMs :
  (find_challenge db challengeID = None ->
   VerifyProof exec_ok now db challengeID proofHash durationMs =
     (Err "challenge not found", db)) /\
  (forall other,
     other <> challengeID ->
     find_challenge
       (snd (VerifyProof exec_ok now db challengeID proofHash durationMs)) other
     = find_challenge db other).
Proof.
  split.
  - intros Hnone. unfold VerifyProof. now rewrite Hnone.
  - intros other Hne. unfold VerifyProof.
    destruct (find_challenge db challengeID); [|reflexivity].
    destruct (2000 <? durationMs).
    + destruct exec_ok; [|reflexivity].
      now apply update_challenge_other.
    + destruct (negb _); destruct exec_ok; try reflexivity;
        now apply update_challenge_other.
Qed.

(** A verification call returns without error only after it has written
    the challenge as verified with the response's hash and duration; when
    the store refuses the write, the call returns an error and the store is
    what it was. *)
Theorem VerifyProof_nil_means_verified
    exec_ok now db challengeID proofHash durationMs db' :
  VerifyProof exec_ok now db challengeID proofHash durationMs = (Ok tt, db') ->
  exec_ok = true /\ durationMs <= 2000 /\
  exists c',
    find_challenge db' challengeID = Some c' /\
    pc_Status c' = "verified" /\ pc_ProofHash c' = Some proofHash /\
    pc_DurationMs c' = Some durationMs /\ pc_VerifiedAt c' = Some now.
Proof.
  unfold VerifyProof.
  destruct (find_challenge db challengeID) as [c|] eqn:Hfind; [|discriminate].
  destruct (Z.ltb_spec 2000 durationMs); [discriminate|].
  destruct (negb _); [discriminate|].
  destruct exec_ok; [|discriminate].
  intros [= <-]. split; [reflexivity|]. split; [lia|].
  exists (set_decided "verified" proofHash durationMs now c).
  rewrite CoordinatorFacts.find_challenge_update, Hfind by reflexivity.
  repeat split.
Qed.

Lemma VerifyProof_nil_means_verified_witness :
  exists c',
    find_challenge
      (snd (VerifyProof true 300 challenged 40 expected_for_challenge 150)) 40
      = Some c' /\
    pc_Status c' = "verified".
Proof.
  destruct (VerifyProof_nil_means_verified true 300 challenged 40
              expected_for_challenge 150
              (snd (VerifyProof true 300 challenged 40
                                expected_for_challenge 150)))
    as (_ & _ & c' & Hrow & Hstatus & _).
  - vm_compute. reflexivity.
  - exists c'. split; [exact Hrow | exact Hstatus].
Defined.

Lemma VerifyProof_refused_write now db challengeID proofHash durationMs :
  snd (VerifyProof false now db challengeID proofHash durationMs) = db.
Proof.
  unfold VerifyProof.
  destruct (find_challenge db challengeID); [|reflexivity].
  destruct (2000 <? durationMs); [reflexivity|].
  now destruct (negb _).
Qed.

(** A new challenge is listed as pending for its node; once a verification
    call for it has been written, no challenge with that id is listed as
    pending any more. *)
Theorem pending_until_verified
    now id seed difficulty db chunkID nodeID now' proofHash durationMs :
  let created := snd (CreateChallenge true now id seed difficulty db
                                      chunkID nodeID) in
  mkProofChallenge id chunkID nodeID seed difficulty "pending" None None None now
    ∈ GetPendingChallenges created nodeID /\
  forall c node,
    c ∈ GetPendingChallenges
          (snd (VerifyProof true now' created id proofHash durationMs)) node ->
    pc_ID c <> id.
Proof.
  intros created. subst created. split.
  - unfold GetPendingChallenges, CreateChallenge. simpl.
    apply list_elem_of_In, in_map_iff.
    eexists. split; [|apply filter_In; split;
                      [apply in_or_app; right; left; reflexivity|]].
    + reflexivity.
    + simpl. now rewrite N.eqb_refl.
  - intros c node Hin Hid.
    unfold GetPendingChallenges in Hin.
    apply list_elem_of_In, in_map_iff in Hin as (row & <- & Hin).
    apply filter_In in Hin as [Hin Hp]. simpl in Hid.
    apply andb_true_iff in Hp as [_ Hpending].
    apply String.eqb_eq in Hpending.
    set (created := snd (CreateChallenge true now id seed difficulty db
                                         chunkID nodeID)) in *.
    assert (Hfound : exists c0, find_challenge created id = Some c0).
    { unfold created, find_challenge, CreateChallenge. simpl.
      destruct (find _ (proof_challenges db ++ _)) eqn:E; [eauto|].
      exfalso.
      pose proof (find_none _ _ E
                    (mkProofChallenge id chunkID nodeID seed difficulty
                                      "pending" None None None now)) as Hn.
      simpl in Hn. rewrite N.eqb_refl in Hn.
      assert (true = false); [|discriminate].
      apply Hn, in_or_app. right. left. reflexivity. }
    destruct Hfound as [c0 Hc0].
    rewrite (CoordinatorFacts.VerifyProof_cases _ _ _ _ _ c0 Hc0) in Hin.
    assert (Hupd : forall f,
               (forall x, pc_Status (f x) <> "pending") ->
               In row (proof_challenges (update_challenge f id created)) ->
               False).
    { intros f Hf Hrow. unfold update_challenge in Hrow. simpl in Hrow.
      apply in_map_iff in Hrow as (x & Hx & _).
      destruct (N.eqb_spec (pc_ID x) id) as [Hxid|Hxid].
      - subst row. now apply (Hf x).
      - subst row. contradiction. }
    destruct (2000 <? durationMs); [|destruct (String.eqb proofHash _)];
      simpl in Hin; eapply Hupd; try exact Hin; intros x; simpl; discriminate.
Qed.

(** Create a challenge under an id that is not yet taken and answer it in
    time with the hash the coordinator expects: the call returns without
    error and the challenge is verified. *)
Theorem created_challenge_can_be_verified
    now id seed difficulty db chunkID nodeID now' durationMs :
  find_challenge db id = None ->
  durationMs <= 2000 ->
  let created := snd (CreateChallenge true now id seed difficulty db
                                      chunkID nodeID) in
  exists db',
    VerifyProof true now' created id
                (generateExpectedProof seed (UUID_String chunkID)) durationMs
      = (Ok tt, db') /\
    find_challenge db' id =
      Some (mkProofChallenge id chunkID nodeID seed difficulty "verified"
              (Some (generateExpectedProof seed (UUID_String chunkID)))
              (Some durationMs) (Some now') now).
Proof.
  intros Hfresh Hin created. subst created.
  assert (Hfind : find_challenge
                    (snd (CreateChallenge true now id seed difficulty db
                                          chunkID nodeID)) id
                  = Some (mkProofChallenge id chunkID nodeID seed difficulty
                            "pending" None None None now)).
  { unfold find_challenge, CreateChallenge in *. simpl.
    rewrite find_app_none.
    - simpl. now rewrite N.eqb_refl.
    - apply not_true_is_false. intros Hex.
      apply existsb_exists in Hex as (x & Hx & Hp).
      eapply find_none in Hfresh; [|exact Hx]. simpl in Hfresh. congruence. }
  rewrite (CoordinatorFacts.VerifyProof_cases _ _ _ _ _ _ Hfind).
  destruct (Z.ltb_spec 2000 durationMs); [lia|].
  change (expected_hash (mkProofChallenge id chunkID nodeID seed difficulty
                                          "pending" None None None now))
    with (generateExpectedProof seed (UUID_String chunkID)).
  rewrite String.eqb_refl.
  eexists. split; [reflexivity|].
  rewrite CoordinatorFacts.find_challenge_update by reflexivity.
  now rewrite Hfind.
Qed.

Lemma created_challenge_can_be_verified_witness :
  exists db',
    VerifyProof true 300 challenged 40
                (generateExpectedProof zero_seed (UUID_String 5)) 150
      = (Ok tt, db') /\
    find_challenge db' 40 =
      Some (mkProofChallenge 40 5 1 zero_seed 2 "verified"
              (Some (generateExpectedProof zero_seed (UUID_String 5)))
              (Some 150) (Some 300) 200).
Proof.
  apply (created_challenge_can_be_verified 200 40 zero_seed 2 after_upload
           5 1 300 150).
  - vm_compute. reflexivity.
  - lia.
Defined.

(** The hash the coordinator expects always has 64 characters. *)
Theorem expected_proof_has_64_characters seed chunkID :
  String.length (generateExpectedProof seed chunkID) = 64%nat.
Proof.
  unfold generateExpectedProof.
  now rewrite StorageNodeMore.length_hex, StorageNodeMore.length_sha256.
Qed.

End RegistryFacts.

(* ===================================================================== *)
(** ** Properties of the chunk catalogue, downloads, credits, settings    *)
(* ===================================================================== *)

Module CatalogFacts.
Import Crypto Coordinator Registry Cipher Catalog Scenario Scenario2.

Local Abbreviation index_of := (fun r : ChunkRow => chunk_ChunkIndex (row_chunk r)).
Local Abbreviation by_index :=
  (fun a b : ChunkRow => chunk_ChunkIndex (row_chunk a)
                         <= chunk_ChunkIndex (row_chunk b)).
Local Abbreviation at_index :=
  (fun (k : Z) (r : ChunkRow) => chunk_ChunkIndex (row_chunk r) =? k).

(** *** Ordering by chunk index *)

Lemma insert_by_index_perm r l : insert_by_index r l ≡ₚ r :: l.
Proof.
  induction l as [|x l IH]; simpl; [reflexivity|].
  destruct (index_of r <=? index_of x); [reflexivity|].
  rewrite IH. apply Permutation_swap.
Qed.

Lemma order_by_index_perm l : order_by_index l ≡ₚ l.
Proof.
  induction l as [|x l IH]; simpl; [reflexivity|].
  now rewrite insert_by_index_perm, IH.
Qed.

Lemma insert_by_index_sorted r l :
  StronglySorted by_index l -> StronglySorted by_index (insert_by_index r l).
Proof.
  induction 1 as [|x l Hs IH Hall]; simpl.
  - constructor; constructor.
  - destruct (Z.leb_spec (index_of r) (index_of x)) as [Hle|Hgt].
    + constructor; [now constructor|].
      constructor; [exact Hle|].
      eapply Forall_impl; [exact Hall|]. simpl. intros y Hy. lia.
    + constructor; [exact IH|].
      rewrite insert_by_index_perm. constructor; [lia | exact Hall].
Qed.

Lemma order_by_index_sorted l : StronglySorted by_index (order_by_index l).
Proof.
  induction l as [|x l IH]; simpl; [constructor|].
  now apply insert_by_index_sorted.
Qed.

(** Sorting is stable: rows with the same index keep their order. *)
Lemma filter_insert_by_index k r l :
  StronglySorted by_index l ->
  List.filter (at_index k) (insert_by_index r l) =
  if at_index k r then r :: List.filter (at_index k) l
  else List.filter (at_index k) l.
Proof.
  induction 1 as [|x l Hs IH Hall]; simpl; [reflexivity|].
  destruct (Z.leb_spec (index_of r) (index_of x)) as [Hle|Hgt]; simpl.
  - reflexivity.
  - rewrite IH.
    destruct (Z.eqb_spec (index_of r) k) as [Hr|Hr];
      destruct (Z.eqb_spec (index_of x) k) as [Hx|Hx];
      try reflexivity; lia.
Qed.

Lemma filter_order_by_index k l :
  List.filter (at_index k) (order_by_index l) = List.filter (at_index k) l.
Proof.
  induction l as [|x l IH]; simpl; [reflexivity|].
  rewrite filter_insert_by_index by apply order_by_index_sorted.
  now rewrite IH.
Qed.

(** The chunks of a file are returned in ascending order of their index,
    and they are exactly the rows of that file, each once. *)
Theorem chunks_of_file_in_order db fileID :
  StronglySorted (fun a b => chunk_ChunkIndex a <= chunk_ChunkIndex b)
                 (GetChunksByFile db fileID) /\
  GetChunksByFile db fileID ≡ₚ
    map row_chunk
        (List.filter (fun r => N.eqb (chunk_FileID (row_chunk r)) fileID)
                     (chunks db)) /\
  Forall (fun c => chunk_FileID c = fileID) (GetChunksByFile db fileID).
Proof.
  unfold GetChunksByFile, rows_of_file.
  set (rows := List.filter _ (chunks db)).
  split; [|split].
  - induction (order_by_index_sorted rows) as [|x l Hs IH Hall]; simpl;
      constructor; [exact IH|].
    now apply Forall_map.
  - now rewrite order_by_index_perm.
  - rewrite order_by_index_perm. apply Forall_map, Forall_forall.
    intros r Hin. apply list_elem_of_In, filter_In in Hin as [_ Hf].
    simpl. now apply N.eqb_eq.
Qed.

(** *** Looking chunks up by index *)

Local Abbreviation put_row :=
  (fun (m : gmap Z (list byte)) (r : ChunkRow) =>
     <[chunk_ChunkIndex (row_chunk r) := row_data r]> m).

Lemma build_lookup (l : list ChunkRow) :
  forall (m : gmap Z (list byte)) k,
    foldl put_row m l !! k =
    match last (List.filter (at_index k) l) with
    | Some r => Some (row_data r)
    | None => m !! k
    end.
Proof.
  induction l as [|x l IH]; intros m k; simpl; [reflexivity|].
  rewrite IH.
  destruct (Z.eqb_spec (index_of x) k) as [Hx|Hx].
  - rewrite last_cons.
    destruct (last (List.filter (at_index k) l)); [reflexivity|].
    subst k. apply lookup_insert_eq.
  - destruct (last (List.filter (at_index k) l)); [reflexivity|].
    now apply lookup_insert_ne.
Qed.

Lemma chunks_map_lookup db fileID k :
  GetChunksByFileWithData db fileID !! k =
  row_data <$>
    last (List.filter (at_index k)
            (List.filter (fun r => N.eqb (chunk_FileID (row_chunk r)) fileID)
                         (chunks db))).
Proof.
  unfold GetChunksByFileWithData, rows_of_file.
  rewrite build_lookup, filter_order_by_index, lookup_empty.
  now destruct (last _).
Qed.

Lemma StoreChunk_chunks exec_ok now fresh db fileID chunkIndex data nodeIDs :
  exec_ok O = true ->
  chunks (snd (StoreChunk exec_ok now fresh db fileID chunkIndex data nodeIDs))
  = chunks db ++
    [mkChunkRow (mkChunk (fresh O) fileID chunkIndex (hex (sha256 data))
                         (Z.of_nat (length data))) data].
Proof.
  intros Hok. unfold StoreChunk. rewrite Hok.
  now destruct (insert_assignments _ _ _ _ _ _ _) as [[|] t].
Qed.

(** Once the chunk row of a store is in (the table admits one row per
    file and index), the bytes are found again under the file and the index
    they were stored with, the chunks at other indexes of the file are what
    they were, and so are the chunks of every other file; this does not
    depend on what happens to the assignments. *)
Theorem stored_chunk_is_found
    exec_ok now fresh db fileID chunkIndex data nodeIDs :
  GetChunksByFileWithData db fileID !! chunkIndex = None ->
  exec_ok O = true ->
  let db' := snd (StoreChunk exec_ok now fresh db fileID chunkIndex data
                             nodeIDs) in
  GetChunksByFileWithData db' fileID !! chunkIndex = Some data /\
  (forall k, k <> chunkIndex ->
     GetChunksByFileWithData db' fileID !! k =
     GetChunksByFileWithData db fileID !! k) /\
  (forall other, other <> fileID ->
     GetChunksByFileWithData db' other = GetChunksByFileWithData db other).
Proof.
  intros _ Hok db'. subst db'.
  pose proof (StoreChunk_chunks exec_ok now fresh db fileID chunkIndex data
                nodeIDs Hok) as Hchunks.
  split; [|split].
  - rewrite chunks_map_lookup, Hchunks, !List.filter_app. simpl.
    rewrite N.eqb_refl. simpl. rewrite Z.eqb_refl.
    now rewrite last_snoc.
  - intros k Hk.
    rewrite !chunks_map_lookup, Hchunks, !List.filter_app. simpl.
    rewrite N.eqb_refl. simpl.
    destruct (Z.eqb_spec chunkIndex k); [congruence|].
    now rewrite app_nil_r.
  - intros other Hother. apply map_eq. intros k.
    rewrite !chunks_map_lookup, Hchunks, !List.filter_app. simpl.
    destruct (N.eqb_spec fileID other); [congruence|].
    simpl. now rewrite app_nil_r.
Qed.

Lemma stored_chunk_is_found_witness :
  GetChunksByFileWithData after_upload 9 !! 0 = Some hello.
Proof.
  apply (stored_chunk_is_found all_writes_succeed 100 fresh_ids registry
           9 0 hello [1%N]).
  - vm_compute. reflexivity.
  - reflexivity.
Defined.

(** *** From placement to the listed assignments *)

Lemma filter_none {A : Type} (p : A -> bool) (l : list A) :
  (forall x, In x l -> p x = false) -> List.filter p l = [].
Proof.
  induction l as [|x l IH]; intros Hp; simpl; [reflexivity|].
  rewrite (Hp x) by now left. apply IH. intros y Hy. apply Hp. now right.
Qed.

Lemma one_active_node_per_id (l : list StorageNode) (n : StorageNode) :
  NoDup (map ID l) -> In n l -> Status n = "active" ->
  List.filter (fun m => N.eqb (ID m) (ID n) && String.eqb (Status m) "active") l
  = [n].
Proof.
  induction l as [|x l IH]; intros Hnodup Hin Hact; [destruct Hin|].
  simpl in Hnodup. apply NoDup_cons in Hnodup as [Hfresh Hnodup].
  simpl. destruct Hin as [->|Hin].
  - rewrite N.eqb_refl, Hact. simpl. f_equal.
    apply filter_none. intros m Hm.
    destruct (N.eqb_spec (ID m) (ID n)) as [Heq|_]; [|reflexivity].
    exfalso. apply Hfresh. rewrite <- Heq.
    apply list_elem_of_In, in_map, Hm.
  - destruct (N.eqb_spec (ID x) (ID n)) as [Heq|_]; [|now apply IH].
    exfalso. apply Hfresh. rewrite Heq.
    apply list_elem_of_In, in_map, Hin.
Qed.

(** Select the peers for a chunk and store the chunk for them: when node
    ids are unique and the identifier drawn for the chunk is not yet used
    by any assignment, the assignments then listed for the chunk are one
    per selected peer. *)
Theorem placed_chunk_lists_its_peers
    exec_ok now fresh db replicaCount nodes fileID chunkIndex data chunk db' :
  NoDup (map ID (storage_nodes db)) ->
  Forall (fun a => asg_ChunkID a <> fresh O) (chunk_assignments db) ->
  SelectNodesForChunks db replicaCount = Ok nodes ->
  StoreChunk exec_ok now fresh db fileID chunkIndex data (map ID nodes)
    = (Ok chunk, db') ->
  map asg_NodeID (GetChunkAssignments db' (chunk_ID chunk)) ≡ₚ map ID nodes /\
  Z.of_nat (length (GetChunkAssignments db' (chunk_ID chunk)))
    = Z.max 0 replicaCount.
Proof.
  intros Hnodup Hfresh Hsel Hstore.
  assert (Hchunk : chunk_ID chunk = fresh O).
  { unfold StoreChunk in Hstore. destruct (exec_ok O); [|discriminate].
    destruct (insert_assignments _ _ _ _ _ _ _) as [[|] t]; [|discriminate].
    now injection Hstore as <- _. }
  destruct (CoordinatorFacts.insert_assignments_appends exec_ok now fresh
              (fresh O) (map ID nodes) 1 (chunk_assignments db) true
              (chunk_assignments db'))
    as (added & Hadded & Hall & Hids).
  { unfold StoreChunk in Hstore. destruct (exec_ok O); [|discriminate].
    simpl in Hstore.
    destruct (insert_assignments _ _ _ _ _ _ _) as [[|] t] eqn:E;
      [|discriminate].
    now injection Hstore as _ <-. }
  specialize (Hids eq_refl).
  assert (Hnodes : storage_nodes db' = storage_nodes db).
  { unfold StoreChunk in Hstore. destruct (exec_ok O); [|discriminate].
    destruct (insert_assignments _ _ _ _ _ _ _) as [[|] t]; [|discriminate].
    now injection Hstore as _ <-. }
  assert (Hselected : Forall (fun n => exists row, In row (storage_nodes db) /\
                                Status row = "active" /\ ID row = ID n) nodes).
  { unfold SelectNodesForChunks in Hsel.
    destruct (_ <? replicaCount); [discriminate|].
    destruct (replicaCount <? 0); [discriminate|].
    injection Hsel as <-. apply Forall_take. unfold GetAllNodes.
    apply Forall_forall. intros n Hin.
    apply list_elem_of_In, in_map_iff in Hin as (row & <- & Hin).
    apply filter_In in Hin as [Hin Hact].
    exists row. split; [exact Hin|]. split; [|reflexivity].
    now apply String.eqb_eq. }
  assert (Hlist : GetChunkAssignments db' (chunk_ID chunk) = added).
  { unfold GetChunkAssignments. rewrite Hchunk, Hadded, Hnodes.
    rewrite List.filter_app.
    rewrite (filter_none _ (chunk_assignments db)).
    2:{ intros a Ha. rewrite Forall_forall in Hfresh.
        apply list_elem_of_In, Hfresh in Ha.
        destruct (N.eqb_spec (asg_ChunkID a) (fresh O)); [contradiction|].
        reflexivity. }
    simpl.
    assert (Hall' : Forall (fun a => asg_ChunkID a = fresh O /\
                                     asg_Status a = "active") added).
    { eapply Forall_impl; [exact Hall|]. simpl. tauto. }
    clear Hadded Hstore Hsel Hall.
    revert nodes Hids Hselected.
    induction Hall' as [|a added (Hc & Hs) _ IH]; intros nodes Hids Hsel;
      [reflexivity|].
    destruct nodes as [|n nodes]; [discriminate|].
    simpl in Hids. injection Hids as Hn Hids.
    apply Forall_cons in Hsel as [(row & Hin & Hact & Hid) Hsel].
    simpl. rewrite Hc, N.eqb_refl, Hs. simpl.
    rewrite (IH nodes Hids Hsel).
    rewrite Hn, <- Hid.
    now rewrite (one_active_node_per_id _ row Hnodup Hin Hact). }
  rewrite Hlist. split; [now rewrite Hids|].
  rewrite <- (length_map asg_NodeID), Hids, length_map.
  unfold SelectNodesForChunks in Hsel.
  destruct (Z.ltb_spec (Z.of_nat (length (GetAllNodes db))) replicaCount);
    [discriminate|].
  destruct (Z.ltb_spec replicaCount 0); [discriminate|].
  injection Hsel as <-. rewrite length_take. lia.
Qed.

Lemma placed_chunk_lists_its_peers_witness :
  map asg_NodeID (GetChunkAssignments after_upload 5) ≡ₚ [1%N] /\
  Z.of_nat (length (GetChunkAssignments after_upload 5)) = 1.
Proof.
  apply (placed_chunk_lists_its_peers all_writes_succeed 100 fresh_ids registry
           1 [scan_listed full_silent_node] 9 0 hello
           (mkChunk 5 9 0 hello_hash 5) after_upload).
  - apply (bool_decide_unpack _). vm_compute. exact I.
  - constructor.
  - vm_compute. reflexivity.
  - vm_compute. reflexivity.
Defined.

(** *** Encryption of chunks *)

Section CipherFacts.
Variable seal : list byte -> list byte -> list byte -> list byte.
Variable open : list byte -> list byte -> list byte -> option (list byte).

(** What AES-GCM guarantees: opening what was sealed under the same key
    and nonce gives the plaintext back. *)
Hypothesis open_seal :
  forall key nonce plain, open key nonce (seal key nonce plain) = Some plain.

Lemma decrypt_encrypt nonce data key :
  aes_key_ok key = true -> length nonce = NonceSize ->
  exists sealed,
    EncryptChunk seal nonce data key = Ok sealed /\
    DecryptChunk open sealed key = Ok data.
Proof.
  intros Hkey Hnonce. unfold EncryptChunk, DecryptChunk. rewrite Hkey.
  eexists. split; [reflexivity|].
  rewrite length_app, Hnonce.
  destruct (Nat.ltb_spec (NonceSize + length (seal key nonce data)) NonceSize);
    [lia|].
  rewrite <- Hnonce, take_app_length, drop_app_length.
  now rewrite open_seal.
Qed.

Lemma reassemble_parts key (parts : list (list byte * list byte)) :
  aes_key_ok key = true ->
  Forall (fun p => length (fst p) = NonceSize) parts ->
  forall (chunks : gmap Z (list byte)) i acc,
    (forall j p, parts !! j = Some p ->
       chunks !! (i + Z.of_nat j) = Some (fst p ++ seal key (fst p) (snd p))) ->
    reassemble open chunks key (length parts) i acc =
    mkDownload 200 (acc ++ concat (map snd parts)).
Proof.
  intros Hkey Hall. induction Hall as [|[nonce plain] parts Hn _ IH];
    intros chunks i acc Hchunks; simpl.
  - now rewrite app_nil_r.
  - pose proof (Hchunks O (nonce, plain) eq_refl) as H0.
    rewrite Z.add_0_r in H0. rewrite H0. simpl in *.
    destruct (decrypt_encrypt nonce plain key Hkey Hn) as (sealed & He & Hd).
    unfold EncryptChunk in He. rewrite Hkey in He. injection He as <-.
    rewrite Hd, IH.
    + now rewrite <- app_assoc.
    + intros j p Hp. specialize (Hchunks (S j) p Hp).
      now replace (i + 1 + Z.of_nat j) with (i + Z.of_nat (S j)) by lia.
Qed.

End CipherFacts.

(** Decrypting an encrypted chunk with the same key gives the chunk back,
    for every key size AES accepts and every 12-byte nonce, provided
    opening undoes sealing. *)
Theorem decrypt_undoes_encrypt
    (seal : list byte -> list byte -> list byte -> list byte)
    (open : list byte -> list byte -> list byte -> option (list byte))
    nonce data key :
  (forall k n p, open k n (seal k n p) = Some p) ->
  aes_key_ok key = true ->
  length nonce = NonceSize ->
  exists sealed,
    EncryptChunk seal nonce data key = Ok sealed /\
    DecryptChunk open sealed key = Ok data.
Proof. intros H. now apply decrypt_encrypt. Qed.

Lemma decrypt_undoes_encrypt_witness :
  exists sealed,
    EncryptChunk (fun _ _ p => rev p) (repeat x00 12) hello (repeat x01 32)
      = Ok sealed /\
    DecryptChunk (fun _ _ c => Some (rev c)) sealed (repeat x01 32) = Ok hello.
Proof.
  apply (decrypt_undoes_encrypt (fun _ _ p => rev p)
           (fun _ _ c => Some (rev c)) (repeat x00 12) hello (repeat x01 32)).
  - intros k n p. now rewrite rev_involutive.
  - reflexivity.
  - reflexivity.
Defined.

(** Input shorter than a nonce is refused as too short, and a key of a
    size other than 16, 24 or 32 bytes is refused, before anything is
    opened. *)
Theorem decrypt_refuses_short_input
    (open : list byte -> list byte -> list byte -> option (list byte))
    data key :
  (aes_key_ok key = false ->
   DecryptChunk open data key = Err "crypto/aes: invalid key size") /\
  (aes_key_ok key = true -> (length data < 12)%nat ->
   DecryptChunk open data key = Err "ciphertext too short").
Proof.
  unfold DecryptChunk. split.
  - now intros ->.
  - intros -> Hshort.
    now destruct (Nat.ltb_spec (length data) NonceSize);
      [|unfold NonceSize in *; lia].
Qed.

(** *** Downloads *)

(** A download answers 200 only to the owner of the file and only when the
    file is ready. *)
Theorem download_only_for_owner_of_ready_file
    (open : list byte -> list byte -> list byte -> option (list byte)) s req :
  download_code (DownloadFile open s req) = 200 ->
  exists fileID userID file,
    param_id req = Some fileID /\ token_user req = Some userID /\
    GetFile s fileID = Ok file /\
    file_UserID file = userID /\ file_Status file = "ready".
Proof.
  unfold DownloadFile.
  destruct (param_id req) as [fileID|]; [|discriminate].
  destruct (token_user req) as [userID|]; [|discriminate].
  destruct (GetFile s fileID) as [file| |] eqn:Hfile; try discriminate.
  destruct (N.eqb_spec (file_UserID file) userID) as [Howner|_];
    [|discriminate].
  destruct (String.eqb_spec (file_Status file) "ready") as [Hready|_];
    [|discriminate].
  intros _. exists fileID, userID, file. repeat split; assumption.
Qed.

(** When chunks 0 .. n-1 of a ready file hold the encryptions of n pieces
    under the file's key, the owner's download answers 200 with the pieces
    joined in order. *)
Theorem download_returns_the_pieces
    (seal : list byte -> list byte -> list byte -> list byte)
    (open : list byte -> list byte -> list byte -> option (list byte))
    s fileID userID file (parts : list (list byte * list byte)) :
  (forall k n p, open k n (seal k n p) = Some p) ->
  GetFile s fileID = Ok file ->
  file_UserID file = userID ->
  file_Status file = "ready" ->
  file_ChunkCount file = Z.of_nat (length parts) ->
  aes_key_ok (file_EncryptionKey file) = true ->
  Forall (fun p => length (fst p) = NonceSize) parts ->
  (forall j p, parts !! j = Some p ->
     GetChunksByFileWithData (db s) fileID !! Z.of_nat j =
     Some (fst p ++ seal (file_EncryptionKey file) (fst p) (snd p))) ->
  DownloadFile open s (mkDownloadRequest (Some fileID) (Some userID)) =
    mkDownload 200 (concat (map snd parts)).
Proof.
  intros Hopen Hfile Howner Hready Hcount Hkey Hnonces Hchunks.
  unfold DownloadFile. simpl. rewrite Hfile, Howner, N.eqb_refl, Hready.
  simpl. rewrite Hcount, Nat2Z.id.
  now rewrite (reassemble_parts seal open Hopen _ parts Hkey Hnonces).
Qed.

Lemma download_only_for_owner_of_ready_file_witness :
  exists fileID userID file,
    Some 9%N = Some fileID /\ Some 3%N = Some userID /\
    GetFile site_ready fileID = Ok file /\
    file_UserID file = userID /\ file_Status file = "ready".
Proof.
  apply (download_only_for_owner_of_ready_file toy_open site_ready
           (mkDownloadRequest (Some 9%N) (Some 3%N))).
  vm_compute. reflexivity.
Defined.

Lemma download_returns_the_pieces_witness :
  DownloadFile toy_open site_ready (mkDownloadRequest (Some 9%N) (Some 3%N)) =
    mkDownload 200 hello.
Proof.
  apply (download_returns_the_pieces toy_seal toy_open site_ready 9 3
           (mkFile 9 3 "hello.txt" 5 "text/plain" file_key "ready" 1 100 120)
           [(zero_nonce, hello)]).
  - intros k n p. unfold toy_open, toy_seal. now rewrite rev_involutive.
  - reflexivity.
  - reflexivity.
  - reflexivity.
  - reflexivity.
  - reflexivity.
  - repeat constructor.
  - intros [|j] p Hp; [|destruct j; discriminate].
    injection Hp as <-. vm_compute. reflexivity.
Defined.

(** *** Deleting a file *)

Lemma find_filter_keeps {A : Type} (p q : A -> bool) (l : list A) :
  (forall x, p x = true -> q x = true) ->
  find p (List.filter q l) = find p l.
Proof.
  intros Hpq. induction l as [|x l IH]; simpl; [reflexivity|].
  destruct (q x) eqn:Hq; simpl.
  - now rewrite IH.
  - destruct (p x) eqn:Hp; [|exact IH].
    apply Hpq in Hp. congruence.
Qed.

Lemma filter_filter_keeps {A : Type} (p q : A -> bool) (l : list A) :
  (forall x, p x = true -> q x = true) ->
  List.filter p (List.filter q l) = List.filter p l.
Proof.
  intros Hpq. induction l as [|x l IH]; simpl; [reflexivity|].
  destruct (q x) eqn:Hq; simpl.
  - now rewrite IH.
  - destruct (p x) eqn:Hp; [|exact IH].
    apply Hpq in Hp. congruence.
Qed.

(** Deleting a file that exists removes its row, its chunks, and every
    assignment and challenge on those chunks; other files and their chunks
    are what they were, and the nodes' rows (their used bytes included) are
    not touched. *)
Theorem delete_file_takes_its_chunks s fileID file :
  GetFile s fileID = Ok file ->
  exists s',
    DeleteFile true s fileID = (Ok tt, s') /\
    GetFile s' fileID = Err "file not found" /\
    GetChunksByFile (db s') fileID = [] /\
    Forall (fun a => asg_ChunkID a ∉ chunk_ids_of_file (db s) fileID)
           (chunk_assignments (db s')) /\
    Forall (fun c => pc_ChunkID c ∉ chunk_ids_of_file (db s) fileID)
           (proof_challenges (db s')) /\
    (forall other, other <> fileID ->
       GetFile s' other = GetFile s other /\
       GetChunksByFile (db s') other = GetChunksByFile (db s) other) /\
    storage_nodes (db s') = storage_nodes (db s).
Proof.
  intros Hfile. unfold DeleteFile. simpl.
  assert (Hex : existsb (fun f => N.eqb (file_ID f) fileID) (files s) = true).
  { unfold GetFile in Hfile.
    destruct (find _ (files s)) as [f|] eqn:Hfind; [|discriminate].
    apply find_some in Hfind. apply existsb_exists. eauto. }
  rewrite Hex. simpl. eexists. split; [reflexivity|].
  assert (Hamong : forall ids u, among ids u = false -> u ∉ ids).
  { intros ids u Hno Hin. apply list_elem_of_In in Hin.
    assert (among ids u = true); [|congruence].
    apply existsb_exists. exists u. split; [exact Hin | apply N.eqb_refl]. }
  split; [|split; [|split; [|split; [|split; [|reflexivity]]]]].
  - unfold GetFile. simpl.
    destruct (find _ (List.filter _ (files s))) as [f|] eqn:Hfind;
      [|reflexivity].
    apply find_some in Hfind as [Hin Hp]. apply filter_In in Hin as [_ Hq].
    rewrite Hp in Hq. discriminate.
  - unfold GetChunksByFile, rows_of_file. simpl.
    rewrite filter_none; [reflexivity|].
    intros r Hin. apply filter_In in Hin as [_ Hq]. unfold of_file in Hq.
    now destruct (N.eqb (chunk_FileID (row_chunk r)) fileID).
  - simpl. apply Forall_forall. intros a Hin.
    apply list_elem_of_In, filter_In in Hin as [_ Hq].
    apply Hamong. now destruct (among _ (asg_ChunkID a)).
  - simpl. apply Forall_forall. intros c Hin.
    apply list_elem_of_In, filter_In in Hin as [_ Hq].
    apply Hamong. now destruct (among _ (pc_ChunkID c)).
  - intros other Hother. split.
    + unfold GetFile. simpl. rewrite find_filter_keeps; [reflexivity|].
      intros f Hf. apply N.eqb_eq in Hf. rewrite Hf.
      now destruct (N.eqb_spec other fileID).
    + unfold GetChunksByFile, rows_of_file. simpl.
      rewrite filter_filter_keeps; [reflexivity|].
      intros r Hr. apply N.eqb_eq in Hr. unfold of_file. rewrite Hr.
      now destruct (N.eqb_spec other fileID).
Qed.

Lemma delete_file_takes_its_chunks_witness :
  exists s',
    DeleteFile true site_ready 9 = (Ok tt, s') /\
    GetFile s' 9 = Err "file not found" /\
    GetChunksByFile (db s') 9 = [] /\
    chunk_assignments (db s') = [] /\ proof_challenges (db s') = [].
Proof.
  destruct (delete_file_takes_its_chunks site_ready 9
              (mkFile 9 3 "hello.txt" 5 "text/plain" file_key "ready" 1 100 120)
              eq_refl)
    as (s' & Hdel & Hfile & Hchunks & _).
  exists s'. split; [exact Hdel|]. split; [exact Hfile|].
  split; [exact Hchunks|].
  vm_compute in Hdel. injection Hdel as <-. split; reflexivity.
Defined.

End CatalogFacts.

Module LedgerFacts.
Import Coordinator Ledger Scenario2.

Lemma recorded_app txs1 txs2 userID :
  recorded (txs1 ++ txs2) userID = recorded txs1 userID + recorded txs2 userID.
Proof.
  induction txs1 as [|t txs1 IH]; simpl; [reflexivity|].
  destruct (ct_UserID t) as [u|]; [|exact IH].
  destruct (N.eqb u userID); lia.
Qed.

(** For every user, whatever a call of [UpdateCredits] does to the balance
    it also does to the sum of the amounts recorded for the user: both move
    by the amount when the call commits for that user, and neither moves
    otherwise. *)
Theorem balance_follows_recorded_amounts
    f now txID a userID amount description who before :
  GetUser a who = Ok before ->
  let a' := snd (UpdateCredits f now txID a userID amount description) in
  exists after,
    GetUser a' who = Ok after /\
    user_Credits after - user_Credits before =
      recorded (credit_transactions a') who - recorded (credit_transactions a) who.
Proof.
  intros Hwho a'. subst a'.
  assert (Hsame : exists after, GetUser a who = Ok after /\
            user_Credits after - user_Credits before =
            recorded (credit_transactions a) who
            - recorded (credit_transactions a) who).
  { exists before. split; [exact Hwho | lia]. }
  unfold UpdateCredits. destruct f; try exact Hsame.
  destruct (negb (forallb _ _)); [exact Hsame|].
  destruct (negb (existsb _ _)); [exact Hsame|].
  simpl. unfold GetUser in *. simpl.
  destruct (find _ (users a)) as [u|] eqn:Hfind; [|discriminate].
  injection Hwho as <-.
  rewrite CoordinatorFacts.find_map_same_key, Hfind.
  - simpl. apply find_some in Hfind as [_ Hid]. apply N.eqb_eq in Hid.
    rewrite recorded_app. simpl. rewrite Hid.
    rewrite (N.eqb_sym userID who).
    destruct (N.eqb who userID); eexists; (split; [reflexivity|]); simpl; lia.
  - intros x. now destruct (N.eqb (user_ID x) userID).
Qed.

Lemma balance_follows_recorded_amounts_witness :
  exists after,
    GetUser (snd (UpdateCredits TxOk 30 22 accounts 3 (-80) "Storage payment"))
            3 = Ok after /\
    user_Credits after - 50 =
      recorded (credit_transactions
                  (snd (UpdateCredits TxOk 30 22 accounts 3 (-80)
                                      "Storage payment"))) 3
      - recorded (credit_transactions accounts) 3.
Proof.
  apply (balance_follows_recorded_amounts TxOk 30 22 accounts 3 (-80)
           "Storage payment" 3 (mkUser 3 "a@example.com" "" 50 10 10)).
  reflexivity.
Defined.

(** A call that returns without error has recorded exactly one transaction,
    for an existing user and with the amount of the call, of type debit
    exactly when the amount is negative and of type credit otherwise; no
    user row is added or removed. *)
Theorem committed_update_is_recorded
    f now txID a userID amount description a' :
  UpdateCredits f now txID a userID amount description = (Ok tt, a') ->
  exists user t,
    GetUser a userID = Ok user /\
    credit_transactions a' = credit_transactions a ++ [t] /\
    ct_UserID t = Some userID /\ ct_Amount t = amount /\
    (ct_TransactionType t = "debit" <-> amount < 0) /\
    (ct_TransactionType t = "credit" <-> 0 <= amount) /\
    map user_ID (users a') = map user_ID (users a).
Proof.
  unfold UpdateCredits. destruct f; try discriminate.
  destruct (negb (forallb _ _)); [discriminate|].
  destruct (existsb _ (users a)) eqn:Hex; [|discriminate].
  simpl. intros [= <-].
  apply existsb_exists in Hex as (u & Hin & Hid).
  unfold GetUser.
  destruct (find _ (users a)) as [user|] eqn:Hfind.
  2:{ eapply find_none in Hfind; [|exact Hin]. simpl in Hfind. congruence. }
  exists (scan_user user). eexists. split; [reflexivity|].
  split; [reflexivity|].
  simpl. split; [reflexivity|]. split; [reflexivity|].
  split; [|split].
  - destruct (Z.leb_spec 0 amount); split; intros; try discriminate;
      try reflexivity; first [lia | exfalso; lia].
  - destruct (Z.leb_spec 0 amount); split; intros; try discriminate;
      try reflexivity; first [lia | exfalso; lia].
  - rewrite map_map. apply map_ext. intros x.
    now destruct (N.eqb (user_ID x) userID).
Qed.

Lemma committed_update_is_recorded_witness :
  exists user t,
    GetUser accounts 3 = Ok user /\
    credit_transactions
      (snd (UpdateCredits TxOk 30 22 accounts 3 (-80) "Storage payment"))
      = credit_transactions accounts ++ [t] /\
    ct_Amount t = -80 /\
    GetUser (snd (UpdateCredits TxOk 30 22 accounts 3 (-80) "Storage payment"))
            3 = Ok (mkUser 3 "a@example.com" "" (-30) 10 30).
Proof.
  destruct (committed_update_is_recorded TxOk 30 22 accounts 3 (-80)
              "Storage payment"
              (snd (UpdateCredits TxOk 30 22 accounts 3 (-80)
                                  "Storage payment")) eq_refl)
    as (user & t & Huser & Htxs & _ & Hamount & _).
  exists user, t. split; [exact Huser|]. split; [exact Htxs|].
  split; [exact Hamount | reflexivity].
Defined.

End LedgerFacts.

Module SettingsFacts.
Import Settings.

Lemma or_string_twice s d : d <> "" -> or_string (or_string s d) d = or_string s d.
Proof.
  intros Hd. unfold or_string.
  destruct (String.eqb_spec s "") as [->|Hs].
  - now destruct (String.eqb_spec d "").
  - now destruct (String.eqb_spec s "").
Qed.

Lemma or_int_twice z d : d <> 0 -> or_int (or_int z d) d = or_int z d.
Proof.
  intros Hd. unfold or_int.
  destruct (Z.eqb_spec z 0) as [->|Hz].
  - now destruct (Z.eqb_spec d 0).
  - now destruct (Z.eqb_spec z 0).
Qed.

(** Setting the defaults twice is the same as setting them once, no numeric
    setting is left at zero and no defaulted text empty, at least one
    transport is enabled, and a value that was given is kept. *)
Theorem defaults_fill_only_gaps c :
  SetDefaults (SetDefaults c) = SetDefaults c /\
  ChunkSizeBytes (Storage (SetDefaults c)) <> 0 /\
  DefaultReplicas (Storage (SetDefaults c)) <> 0 /\
  ProofDifficulty (Storage (SetDefaults c)) <> 0 /\
  Port (Server (SetDefaults c)) <> 0 /\
  Host (Server (SetDefaults c)) <> "" /\
  (EnableTCP (P2P (SetDefaults c)) = true \/
   EnableQUIC (P2P (SetDefaults c)) = true) /\
  (ChunkSizeBytes (Storage c) <> 0 ->
   ChunkSizeBytes (Storage (SetDefaults c)) = ChunkSizeBytes (Storage c)) /\
  (DefaultReplicas (Storage c) <> 0 ->
   DefaultReplicas (Storage (SetDefaults c)) = DefaultReplicas (Storage c)) /\
  (ProofDifficulty (Storage c) <> 0 ->
   ProofDifficulty (Storage (SetDefaults c)) = ProofDifficulty (Storage c)).
Proof.
  assert (Hint : forall z d, d <> 0 -> or_int z d <> 0).
  { intros z d Hd. unfold or_int. now destruct (Z.eqb_spec z 0). }
  assert (Hkeep : forall z d, z <> 0 -> or_int z d = z).
  { intros z d Hz. unfold or_int. now destruct (Z.eqb_spec z 0). }
  destruct c as [[h p rt wt] [dh dp du dpw dd ds] [la bp q t] [cs dr pd pi sc]].
  unfold SetDefaults. simpl.
  split; [|repeat split; try (apply Hint; discriminate); try apply Hkeep].
  - rewrite !or_string_twice, !or_int_twice by discriminate.
    f_equal. f_equal; now destruct q, t.
  - unfold or_string. now destruct (String.eqb_spec h "").
  - destruct q, t; simpl; auto.
Qed.

Example default_settings :
  Storage DefaultConfig = mkStorageConfig 262144 3 1000 4 100 /\
  Server DefaultConfig = mkServerConfig "0.0.0.0" 8080 30 30.
Proof. split; reflexivity. Qed.

End SettingsFacts.
